(** * Reserved IP address classification (ip/reservedip)

    A shallow embedding of [reservedip.cpp]: the two static tables, the
    prefix matcher and the two exported classifiers [IsReservedIPv4] and
    [IsReservedIPv6], followed by the properties the specification states
    about them.

    The translation unit owns four objects with static storage duration
    (two tables and their two element counts).  They are kept in an explicit
    [Memory] record that every function receives and hands back, so that the
    absence of writes is a theorem about the code and not a convention of the
    model.  Loops carry a fuel argument; reads outside an object are
    reported as [Fault]. *)

From Stdlib Require Import ZArith List Lia Bool Sorting.Sorted Sorting.Permutation.
Import ListNotations.

Local Open Scope Z_scope.

(* ------------------------------------------------------------------ *)
(** ** Machine integers *)
(* ------------------------------------------------------------------ *)

Module MachineInt.

(** [uint8_t] and [uint32_t] values are the integers of [0, 2^w). *)
Definition is_uint8 (z : Z) : bool := (0 <=? z) && (z <? 256).
Definition is_uint32 (z : Z) : bool := (0 <=? z) && (z <? 2 ^ 32).

(** Conversion to [uint8_t] keeps the low eight bits. *)
Definition to_uint8 (z : Z) : Z := z mod 2 ^ 8.

(** [int] is 32 bits wide, two's complement. *)
Definition to_int (z : Z) : Z := (z + 2 ^ 31) mod 2 ^ 32 - 2 ^ 31.

Definition int_add (a b : Z) : Z := to_int (a + b).
Definition int_sub (a b : Z) : Z := to_int (a - b).
(** C division and remainder truncate towards zero. *)
Definition int_div (a b : Z) : Z := to_int (Z.quot a b).
Definition int_rem (a b : Z) : Z := to_int (Z.rem a b).
Definition int_shl (a b : Z) : Z := to_int (Z.shiftl a b).

End MachineInt.
Import MachineInt.

(* ------------------------------------------------------------------ *)
(** ** Data model and static tables *)
(* ------------------------------------------------------------------ *)

(** [struct IPv4Range { uint32_t start; uint32_t end; }] *)
Record IPv4Range : Type := mkIPv4Range { start : Z; end_ : Z }.

(** [struct IPv6Prefix { uint8_t prefix[16]; uint8_t prefix_len; }] *)
Record IPv6Prefix : Type := mkIPv6Prefix { prefix : list Z; prefix_len : Z }.

Definition ipv4_reserved_ranges : list IPv4Range :=
  [ mkIPv4Range 0x00000000 0x00FFFFFF;
    mkIPv4Range 0x64400000 0x647FFFFF;
    mkIPv4Range 0xC0000000 0xC0000007;
    mkIPv4Range 0xC0000200 0xC00002FF;
    mkIPv4Range 0xC0586300 0xC05863FF;
    mkIPv4Range 0xC6120000 0xC613FFFF;
    mkIPv4Range 0xC6336400 0xC63364FF;
    mkIPv4Range 0xCB007100 0xCB0071FF;
    mkIPv4Range 0xE0000000 0xFFFFFFFF ].

(** [sizeof(ipv4_reserved_ranges) / sizeof(IPv4Range)] *)
Definition ipv4_ranges_count : Z := Z.of_nat (length ipv4_reserved_ranges).

Definition ipv6_reserved_prefixes : list IPv6Prefix :=
  [ mkIPv6Prefix [0;0;0;0;0;0;0;0;0;0;0;0;0;0;0;0] 128;
    mkIPv6Prefix [0;0;0;0;0;0;0;0;0;0;0xFF;0xFF;0;0;0;0] 96;
    mkIPv6Prefix [0x01;0x00;0;0;0;0;0;0;0;0;0;0;0;0;0;0] 64;
    mkIPv6Prefix [0x20;0x01;0;0;0;0;0;0;0;0;0;0;0;0;0;0] 32;
    mkIPv6Prefix [0x20;0x01;0x00;0x10;0;0;0;0;0;0;0;0;0;0;0;0] 28;
    mkIPv6Prefix [0x20;0x01;0x00;0x20;0;0;0;0;0;0;0;0;0;0;0;0] 28;
    mkIPv6Prefix [0x20;0x01;0x0d;0xb8;0;0;0;0;0;0;0;0;0;0;0;0] 32;
    mkIPv6Prefix [0xFF;0;0;0;0;0;0;0;0;0;0;0;0;0;0;0] 8 ].

(** [sizeof(ipv6_reserved_prefixes) / sizeof(IPv6Prefix)] *)
Definition ipv6_prefixes_count : Z := Z.of_nat (length ipv6_reserved_prefixes).

(* ------------------------------------------------------------------ *)
(** ** Static storage and the execution monad *)
(* ------------------------------------------------------------------ *)

(** The objects with static storage duration of the translation unit. *)
Record Memory : Type := mkMemory {
  mem_ipv4_reserved_ranges : list IPv4Range;
  mem_ipv4_ranges_count : Z;
  mem_ipv6_reserved_prefixes : list IPv6Prefix;
  mem_ipv6_prefixes_count : Z
}.

(** Storage as the static initialisers leave it. *)
Definition initial_memory : Memory :=
  {| mem_ipv4_reserved_ranges := ipv4_reserved_ranges;
     mem_ipv4_ranges_count := ipv4_ranges_count;
     mem_ipv6_reserved_prefixes := ipv6_reserved_prefixes;
     mem_ipv6_prefixes_count := ipv6_prefixes_count |}.

(** What running a piece of code produces: a value together with the
    storage it leaves behind, an access outside an object, or an exhausted
    iteration budget. *)
Inductive outcome (A : Type) : Type :=
| Done (a : A) (m : Memory)
| Fault
| OutOfFuel.
Arguments Done {A} a m.
Arguments Fault {A}.
Arguments OutOfFuel {A}.

Definition M (A : Type) : Type := Memory -> outcome A.

Definition ret {A} (a : A) : M A := fun m => Done a m.

Definition bind {A B} (c : M A) (k : A -> M B) : M B :=
  fun m => match c m with
           | Done a m' => k a m'
           | Fault => Fault
           | OutOfFuel => OutOfFuel
           end.

Definition fault {A} : M A := fun _ => Fault.
Definition out_of_fuel {A} : M A := fun _ => OutOfFuel.

Declare Scope cmd_scope.
Delimit Scope cmd_scope with cmd.
Notation "x <- c ;; k" := (bind c (fun x => k))
  (at level 61, c at next level, right associativity) : cmd_scope.
Local Open Scope cmd_scope.

(** Element [i] of an array object; any index outside the object faults. *)
Definition index {A} (l : list A) (i : Z) : option A :=
  if i <? 0 then None else nth_error l (Z.to_nat i).

Definition lift_read {A} (o : option A) : M A :=
  match o with
  | Some a => ret a
  | None => fault
  end.

(** [ipv4_reserved_ranges[i]] *)
Definition load_ipv4_range (i : Z) : M IPv4Range :=
  fun m => lift_read (index (mem_ipv4_reserved_ranges m) i) m.

Definition load_ipv4_ranges_count : M Z :=
  fun m => Done (mem_ipv4_ranges_count m) m.

Definition load_ipv6_prefixes_count : M Z :=
  fun m => Done (mem_ipv6_prefixes_count m) m.

(** A [const IPv6Prefix*] into [ipv6_reserved_prefixes] is the index of the
    element it points to.  [p->prefix_len] and [p->prefix[j]]: *)
Definition load_prefix_len (p : Z) : M Z :=
  fun m => lift_read (option_map prefix_len (index (mem_ipv6_reserved_prefixes m) p)) m.

Definition load_prefix_byte (p j : Z) : M Z :=
  fun m => match index (mem_ipv6_reserved_prefixes m) p with
           | Some e => lift_read (index (prefix e) j) m
           | None => Fault
           end.

(** [ip[i]] for the caller's buffer [ip]. *)
Definition load_byte (ip : list Z) (i : Z) : M Z := lift_read (index ip i).

(* ------------------------------------------------------------------ *)
(** ** The code *)
(* ------------------------------------------------------------------ *)

(** The [for] loop of [ipv6_matches_prefix], started at [i].  [Some r]
    stands for [return r] inside the loop, [None] for leaving the loop
    through its condition. *)
Fixpoint ipv6_matches_prefix_for (fuel : nat) (ip : list Z) (p : Z)
         (bytes_to_check i : Z) : M (option Z) :=
  match fuel with
  | O => out_of_fuel
  | S fuel' =>
      if i <? bytes_to_check then
        a <- load_byte ip i ;;
        b <- load_prefix_byte p i ;;
        if negb (a =? b) then ret (Some 0)
        else ipv6_matches_prefix_for fuel' ip p bytes_to_check (int_add i 1)
      else ret None
  end.

Definition ipv6_matches_prefix (fuel : nat) (ip : list Z) (p : Z) : M Z :=
  len <- load_prefix_len p ;;
  let bytes_to_check := int_div len 8 in
  let remaining_bits := int_rem len 8 in
  r <- ipv6_matches_prefix_for fuel ip p bytes_to_check 0 ;;
  match r with
  | Some v => ret v
  | None =>
      if remaining_bits >? 0 then
        let mask := to_uint8 (int_shl 0xFF (int_sub 8 remaining_bits)) in
        a <- load_byte ip bytes_to_check ;;
        b <- load_prefix_byte p bytes_to_check ;;
        if negb (Z.land a mask =? Z.land b mask) then ret 0
        else ret 1
      else ret 1
  end.

(** The [while (left <= right)] loop of [IsReservedIPv4]. *)
Fixpoint IsReservedIPv4_while (fuel : nat) (ip_host left right : Z) : M Z :=
  match fuel with
  | O => out_of_fuel
  | S fuel' =>
      if left <=? right then
        let mid := int_div (int_add left right) 2 in
        range <- load_ipv4_range mid ;;
        if (ip_host >=? start range) && (ip_host <=? end_ range) then ret 1
        else if ip_host <? start range then
          IsReservedIPv4_while fuel' ip_host left (int_sub mid 1)
        else
          IsReservedIPv4_while fuel' ip_host (int_add mid 1) right
      else ret 0
  end.

Definition IsReservedIPv4 (fuel : nat) (ip_host : Z) : M Z :=
  count <- load_ipv4_ranges_count ;;
  IsReservedIPv4_while fuel ip_host 0 (int_sub count 1).

(** The [for] loop of [IsReservedIPv6], started at [i].  The call to
    [ipv6_matches_prefix] draws on what is left of the same budget. *)
Fixpoint IsReservedIPv6_for (fuel : nat) (ip16 : list Z) (i : Z) : M Z :=
  match fuel with
  | O => out_of_fuel
  | S fuel' =>
      count <- load_ipv6_prefixes_count ;;
      if i <? count then
        r <- ipv6_matches_prefix fuel' ip16 i ;;
        if negb (r =? 0) then ret 1
        else IsReservedIPv6_for fuel' ip16 (int_add i 1)
      else ret 0
  end.

(** [ip16] is [None] for the null pointer and [Some b] for a pointer to a
    buffer holding the bytes [b]. *)
Definition IsReservedIPv6 (fuel : nat) (ip16 : option (list Z)) : M Z :=
  match ip16 with
  | None => ret 0
  | Some ip => IsReservedIPv6_for fuel ip 0
  end.


(* ------------------------------------------------------------------ *)
(** ** Reference definitions taken from the specification *)
(* ------------------------------------------------------------------ *)

Module Spec.

(** The nine covered IPv4 ranges as the specification lists them
    (inclusive bounds, host order). *)
Definition covered_ranges : list (Z * Z) :=
  [ (0x00000000, 0x00FFFFFF); (0x64400000, 0x647FFFFF);
    (0xC0000000, 0xC0000007); (0xC0000200, 0xC00002FF);
    (0xC0586300, 0xC05863FF); (0xC6120000, 0xC613FFFF);
    (0xC6336400, 0xC63364FF); (0xCB007100, 0xCB0071FF);
    (0xE0000000, 0xFFFFFFFF) ].

(** The naive classifier: test the ranges one after the other. *)
Fixpoint linear_scan (a : Z) (t : list IPv4Range) : Z :=
  match t with
  | [] => 0
  | r :: t' =>
      if (start r <=? a) && (a <=? end_ r) then 1 else linear_scan a t'
  end.

(** Table invariant of the data model. *)
Definition range_valid (r : IPv4Range) : Prop := start r <= end_ r.

Definition starts_ascending (r1 r2 : IPv4Range) : Prop := start r1 < start r2.

(** Two closed intervals overlap when some address lies in both. *)
Definition overlap (r1 r2 : IPv4Range) : Prop :=
  exists a, (start r1 <= a <= end_ r1) /\ (start r2 <= a <= end_ r2).

Definition table_invariant (t : list IPv4Range) : Prop :=
  Forall range_valid t /\
  StronglySorted starts_ascending t /\
  ForallOrdPairs (fun r1 r2 => ~ overlap r1 r2) t.

(** The eight covered IPv6 prefixes as the specification lists them:
    the eight 16-bit groups of the textual form, and the prefix length. *)
Definition covered_prefixes : list (list Z * Z) :=
  [ ([0; 0; 0; 0; 0; 0; 0; 0], 128);            (* ::/128 *)
    ([0; 0; 0; 0; 0; 0xffff; 0; 0], 96);        (* ::ffff:0:0/96 *)
    ([0x100; 0; 0; 0; 0; 0; 0; 0], 64);         (* 100::/64 *)
    ([0x2001; 0; 0; 0; 0; 0; 0; 0], 32);        (* 2001::/32 *)
    ([0x2001; 0x10; 0; 0; 0; 0; 0; 0], 28);     (* 2001:10::/28 *)
    ([0x2001; 0x20; 0; 0; 0; 0; 0; 0], 28);     (* 2001:20::/28 *)
    ([0x2001; 0xdb8; 0; 0; 0; 0; 0; 0], 32);    (* 2001:db8::/32 *)
    ([0xff00; 0; 0; 0; 0; 0; 0; 0], 8) ].       (* ff00::/8 *)

(** A 16-bit group in network order. *)
Definition group_bytes (g : Z) : list Z := [g / 256; g mod 256].

Definition prefix_of_groups (e : list Z * Z) : IPv6Prefix :=
  mkIPv6Prefix (flat_map group_bytes (fst e)) (snd e).

Fixpoint bytes_eqb (xs ys : list Z) : bool :=
  match xs, ys with
  | [], [] => true
  | x :: xs', y :: ys' => (x =? y) && bytes_eqb xs' ys'
  | _, _ => false
  end.

(** Prefix match as the specification words it: the [prefix_len / 8]
    complete leading bytes are equal and, when [prefix_len] is not a
    multiple of eight, the next byte agrees under the mask
    [0xFF << (8 - remaining_bits)]. *)
Definition prefix_match (ip : list Z) (p : IPv6Prefix) : bool :=
  let complete := prefix_len p / 8 in
  let remaining_bits := prefix_len p mod 8 in
  let mask := Z.shiftl 0xFF (8 - remaining_bits) in
  bytes_eqb (firstn (Z.to_nat complete) ip)
            (firstn (Z.to_nat complete) (prefix p)) &&
  ((remaining_bits =? 0) ||
   (Z.land (nth (Z.to_nat complete) ip 0) mask =?
    Z.land (nth (Z.to_nat complete) (prefix p) 0) mask)).

(** A byte sequence read as one big-endian number, and its [n] leading
    bits when it is 128 bits wide. *)
Definition be_value (bs : list Z) : Z :=
  fold_left (fun acc b => acc * 256 + b) bs 0.

Definition leading_bits (n : Z) (bs : list Z) : Z :=
  Z.shiftr (be_value bs) (128 - n).

(** The addresses [2001:10::], [2001:20::] and [2001::], whose leading
    bits are the patterns of the two /28 entries and of the first /32
    entry. *)
Definition address_of_groups (gs : list Z) : list Z := flat_map group_bytes gs.

Definition orchid_v1 : list Z := address_of_groups [0x2001; 0x10; 0; 0; 0; 0; 0; 0].
Definition orchid_v2 : list Z := address_of_groups [0x2001; 0x20; 0; 0; 0; 0; 0; 0].
Definition teredo : list Z := address_of_groups [0x2001; 0; 0; 0; 0; 0; 0; 0].

End Spec.

(* ------------------------------------------------------------------ *)
(** ** Auxiliary predicates used by the proofs *)
(* ------------------------------------------------------------------ *)

(** In a table that satisfies the invariant every range ends before the
    ranges after it start. *)
Definition ends_before (r1 r2 : IPv4Range) : Prop := end_ r1 < start r2.

(** Storage in which the IPv4 count agrees with the table, and the table is
    short enough for [left + right] to stay inside [int]. *)
Definition ipv4_storage_ok (m : Memory) : Prop :=
  mem_ipv4_ranges_count m = Z.of_nat (length (mem_ipv4_reserved_ranges m)) /\
  Z.of_nat (length (mem_ipv4_reserved_ranges m)) < 2 ^ 30.

(** A 16-byte buffer of [uint8_t] values. *)
Definition is_address (ip : list Z) : bool :=
  (length ip =? 16)%nat && forallb is_uint8 ip.

(** A well-formed table entry: sixteen bytes and a length of at most 128. *)
Definition prefix_ok (p : IPv6Prefix) : Prop :=
  is_address (prefix p) = true /\ 0 <= prefix_len p <= 128.

Definition ipv6_storage_ok (m : Memory) : Prop :=
  mem_ipv6_prefixes_count m = Z.of_nat (length (mem_ipv6_reserved_prefixes m)) /\
  Z.of_nat (length (mem_ipv6_reserved_prefixes m)) < 2 ^ 30 /\
  Forall prefix_ok (mem_ipv6_reserved_prefixes m).

(** What a caller may pass to [IsReservedIPv6]: the null pointer or a
    pointer to sixteen bytes. *)
Definition is_argument (ip16 : option (list Z)) : bool :=
  match ip16 with
  | None => true
  | Some ip => is_address ip
  end.

(** A computation that hands back the storage it was given. *)
Definition read_only {A} (c : M A) : Prop :=
  forall m a m', c m = Done a m' -> m' = m.

(** Two calls in a row, returning both results. *)
Definition twice {A} (c : M A) : M (A * A) :=
  r1 <- c ;; r2 <- c ;; ret (r1, r2).

(** ** Address blocks named in the comments of the source *)

(** The address [a.b.c.d] in host order. *)
Definition dotted (a b c d : Z) : Z := ((a * 256 + b) * 256 + c) * 256 + d.

(** Membership of [a] in the block [base/len]: the [len] leading bits of
    the 32 agree. *)
Definition in_cidr (a : Z) (block : Z * Z) : bool :=
  Z.shiftr a (32 - snd block) =? Z.shiftr (fst block) (32 - snd block).

(** The block each line of [ipv4_reserved_ranges] is commented with. *)
Definition documented_blocks : list (Z * Z) :=
  [ (dotted 0 0 0 0, 8);        (* 0.0.0.0/8 *)
    (dotted 100 64 0 0, 10);    (* 100.64.0.0/10 *)
    (dotted 192 0 0 0, 29);     (* 192.0.0.0/29 *)
    (dotted 192 0 2 0, 24);     (* 192.0.2.0/24 *)
    (dotted 192 88 99 0, 24);   (* 192.88.99.0/24 *)
    (dotted 198 18 0 0, 15);    (* 198.18.0.0/15 *)
    (dotted 198 51 100 0, 24);  (* 198.51.100.0/24 *)
    (dotted 203 0 113 0, 24);   (* 203.0.113.0/24 *)
    (dotted 224 0 0 0, 3) ].    (* 224.0.0.0/3 *)

(** Blocks the tables leave to the caller's standard library: private use,
    loopback and link-local. *)
Definition left_out_blocks : list (Z * Z) :=
  [ (dotted 10 0 0 0, 8); (dotted 127 0 0 0, 8); (dotted 169 254 0 0, 16);
    (dotted 172 16 0 0, 12); (dotted 192 168 0 0, 16) ].

(** The IPv4-mapped IPv6 address [::ffff:a] of a 32-bit address, in network
    order. *)
Definition ipv4_mapped (a : Z) : list Z :=
  [0; 0; 0; 0; 0; 0; 0; 0; 0; 0; 0xFF; 0xFF;
   a / 2 ^ 24; (a / 2 ^ 16) mod 256; (a / 2 ^ 8) mod 256; a mod 256].

(** [::1], [fc00::] and [fe80::]: loopback, the unique-local block [/7] and
    the link-local block [/10]. *)
Definition loopback : list Z := Spec.address_of_groups [0; 0; 0; 0; 0; 0; 0; 1].
Definition unique_local : list Z := Spec.address_of_groups [0xfc00; 0; 0; 0; 0; 0; 0; 0].
Definition link_local : list Z := Spec.address_of_groups [0xfe80; 0; 0; 0; 0; 0; 0; 0].

(* ------------------------------------------------------------------ *)
(** ** Basic facts: machine integers, array reads, the monad *)
(* ------------------------------------------------------------------ *)

Lemma to_int_small z : - 2 ^ 31 <= z < 2 ^ 31 -> to_int z = z.
Proof.
  intros H. unfold to_int. rewrite Z.mod_small; lia.
Qed.

Lemma int_add_small a b : - 2 ^ 31 <= a + b < 2 ^ 31 -> int_add a b = a + b.
Proof. apply to_int_small. Qed.

Lemma int_sub_small a b : - 2 ^ 31 <= a - b < 2 ^ 31 -> int_sub a b = a - b.
Proof. apply to_int_small. Qed.

Lemma int_div_nonneg a b :
  0 <= a < 2 ^ 31 -> 0 < b -> int_div a b = a / b.
Proof.
  intros Ha Hb. unfold int_div.
  rewrite Z.quot_div_nonneg by lia.
  apply to_int_small.
  assert (0 <= a / b) by (apply Z.div_pos; lia).
  assert (a / b <= a) by (apply Z.div_le_upper_bound; nia).
  lia.
Qed.

Lemma int_rem_nonneg a b :
  0 <= a < 2 ^ 31 -> 0 < b -> int_rem a b = a mod b.
Proof.
  intros Ha Hb. unfold int_rem.
  rewrite Z.rem_mod_nonneg by lia.
  apply to_int_small.
  pose proof (Z.mod_pos_bound a b Hb).
  assert (a mod b <= a) by (apply Z.mod_le; lia).
  lia.
Qed.

Lemma midpoint_between left right :
  left <= right -> left <= (left + right) / 2 <= right.
Proof.
  intros H. split.
  - apply Z.div_le_lower_bound; lia.
  - apply Z.div_le_upper_bound; lia.
Qed.

Lemma index_bounds {A} (l : list A) i a :
  index l i = Some a -> 0 <= i < Z.of_nat (length l).
Proof.
  unfold index. destruct (Z.ltb_spec i 0); [discriminate|].
  intros H'. assert (nth_error l (Z.to_nat i) <> None) as Hn by congruence.
  apply nth_error_Some in Hn. lia.
Qed.

Lemma index_in_bounds {A} (l : list A) i :
  0 <= i < Z.of_nat (length l) -> exists a, index l i = Some a.
Proof.
  intros H. unfold index. destruct (Z.ltb_spec i 0); [lia|].
  destruct (nth_error l (Z.to_nat i)) eqn:E; [eauto|].
  apply nth_error_None in E. lia.
Qed.

Lemma index_In {A} (l : list A) i a : index l i = Some a -> In a l.
Proof.
  unfold index. destruct (i <? 0); [discriminate|]. apply nth_error_In.
Qed.

Lemma In_index {A} (l : list A) a : In a l -> exists i, index l i = Some a.
Proof.
  intros H. apply In_nth_error in H as [n Hn].
  exists (Z.of_nat n). unfold index.
  destruct (Z.ltb_spec (Z.of_nat n) 0); [lia|].
  now rewrite Nat2Z.id.
Qed.

Lemma index_cons {A} (x : A) l i :
  0 <= i -> index (x :: l) (i + 1) = index l i.
Proof.
  intros H. unfold index.
  destruct (Z.ltb_spec (i + 1) 0); [lia|].
  destruct (Z.ltb_spec i 0); [lia|].
  replace (Z.to_nat (i + 1)) with (S (Z.to_nat i)) by lia. reflexivity.
Qed.

Lemma StronglySorted_index {A} (R : A -> A -> Prop) l :
  StronglySorted R l ->
  forall i j a b, index l i = Some a -> index l j = Some b -> i < j -> R a b.
Proof.
  induction 1 as [|x l Hs IH Hall]; intros i j a b Hi Hj Hlt.
  - apply index_bounds in Hi. simpl in Hi. lia.
  - pose proof (index_bounds _ _ _ Hi) as Bi.
    replace j with ((j - 1) + 1) in Hj by lia.
    rewrite index_cons in Hj by lia.
    destruct (Z.eq_dec i 0) as [->|Hne].
    + unfold index in Hi. simpl in Hi. injection Hi as <-.
      rewrite Forall_forall in Hall. apply Hall. eapply index_In; eauto.
    + replace i with ((i - 1) + 1) in Hi by lia.
      rewrite index_cons in Hi by lia.
      eapply IH; eauto. lia.
Qed.

Lemma run_bind {A B} (c : M A) (k : A -> M B) m a m' :
  c m = Done a m' -> bind c k m = k a m'.
Proof. intros H. unfold bind. now rewrite H. Qed.

Lemma run_load_ipv4_range m i r :
  index (mem_ipv4_reserved_ranges m) i = Some r -> load_ipv4_range i m = Done r m.
Proof. intros H. unfold load_ipv4_range. now rewrite H. Qed.

Lemma run_load_byte ip i a m : index ip i = Some a -> load_byte ip i m = Done a m.
Proof. intros H. unfold load_byte. now rewrite H. Qed.

Lemma run_load_prefix_len m p e :
  index (mem_ipv6_reserved_prefixes m) p = Some e ->
  load_prefix_len p m = Done (prefix_len e) m.
Proof. intros H. unfold load_prefix_len. now rewrite H. Qed.

Lemma run_load_prefix_byte m p e j b :
  index (mem_ipv6_reserved_prefixes m) p = Some e ->
  index (prefix e) j = Some b ->
  load_prefix_byte p j m = Done b m.
Proof. intros H1 H2. unfold load_prefix_byte. now rewrite H1, H2. Qed.

(* ------------------------------------------------------------------ *)
(** ** IPv4: the binary search *)
(* ------------------------------------------------------------------ *)

Lemma linear_scan_hit a t :
  (exists r, In r t /\ start r <= a <= end_ r) -> Spec.linear_scan a t = 1.
Proof.
  induction t as [|r0 t IH]; intros (r & Hin & Hr); simpl in *; [contradiction|].
  destruct ((start r0 <=? a) && (a <=? end_ r0)) eqn:E; [reflexivity|].
  destruct Hin as [->|Hin]; [|eauto].
  apply andb_false_iff in E. destruct E as [E|E];
    [apply Z.leb_gt in E | apply Z.leb_gt in E]; lia.
Qed.

Lemma linear_scan_miss a t :
  (forall r, In r t -> ~ (start r <= a <= end_ r)) -> Spec.linear_scan a t = 0.
Proof.
  induction t as [|r0 t IH]; intros H; simpl in *; [reflexivity|].
  destruct ((start r0 <=? a) && (a <=? end_ r0)) eqn:E.
  - apply andb_true_iff in E. destruct E as [E1 E2].
    apply Z.leb_le in E1, E2. exfalso. apply (H r0); auto.
  - apply IH. intros r Hr. apply H. auto.
Qed.

Lemma linear_scan_bool a t : Spec.linear_scan a t = 0 \/ Spec.linear_scan a t = 1.
Proof.
  induction t as [|r0 t IH]; simpl; [auto|].
  destruct ((start r0 <=? a) && (a <=? end_ r0)); auto.
Qed.

Lemma invariant_separated t :
  Spec.table_invariant t -> StronglySorted ends_before t.
Proof.
  intros (Hv & Hs & Hd).
  induction t as [|r t IH]; [constructor|].
  inversion Hv as [|? ? Hr Hv']; subst.
  inversion Hs as [|? ? Hs' Hall]; subst.
  inversion Hd as [|? ? Hnov Hd']; subst.
  constructor; [auto|].
  rewrite Forall_forall in *. intros r' Hin.
  specialize (Hv' _ Hin). specialize (Hall _ Hin). specialize (Hnov _ Hin).
  unfold ends_before, Spec.range_valid, Spec.starts_ascending in *.
  destruct (Z.lt_ge_cases (end_ r) (start r')) as [|Hge]; [assumption|].
  exfalso. apply Hnov. exists (start r'). lia.
Qed.

Section BinarySearch.

Variable m : Memory.
Variable ip_host : Z.
Hypothesis Hok : ipv4_storage_ok m.

Lemma midpoint left right :
  0 <= left -> left <= right ->
  right < Z.of_nat (length (mem_ipv4_reserved_ranges m)) ->
  int_div (int_add left right) 2 = (left + right) / 2.
Proof.
  destruct Hok as [_ Hlen]. intros.
  rewrite int_add_small by lia. apply int_div_nonneg; lia.
Qed.

(** Progress: each iteration shrinks [right - left], so a budget larger
    than the width of the interval is never exhausted.  No property of
    the table contents is needed. *)
Lemma IsReservedIPv4_while_terminates fuel :
  forall left right,
    0 <= left -> right < Z.of_nat (length (mem_ipv4_reserved_ranges m)) ->
    left <= right + 1 -> right - left + 1 < Z.of_nat fuel ->
    exists r, IsReservedIPv4_while fuel ip_host left right m = Done r m /\
              (r = 0 \/ r = 1).
Proof.
  induction fuel as [|fuel IH]; intros left right Hl Hr Hlr Hf; [lia|].
  cbn [IsReservedIPv4_while].
  destruct (Z.leb_spec left right) as [Hle|Hgt]; [|exists 0; auto].
  rewrite midpoint by assumption.
  set (mid := (left + right) / 2).
  assert (left <= mid <= right) as Hmid by (apply midpoint_between; assumption).
  destruct (index_in_bounds (mem_ipv4_reserved_ranges m) mid) as [range Hrange];
    [lia|].
  rewrite (run_bind _ _ _ _ _ (run_load_ipv4_range _ _ _ Hrange)).
  destruct Hok as [_ Hlen].
  destruct ((ip_host >=? start range) && (ip_host <=? end_ range));
    [exists 1; auto|].
  destruct (ip_host <? start range).
  - rewrite int_sub_small by lia. apply IH; lia.
  - rewrite int_add_small by lia. apply IH; lia.
Qed.

Hypothesis Hinv : Spec.table_invariant (mem_ipv4_reserved_ranges m).

(** Correctness: with everything left of [left] below the address and
    everything right of [right] above it, the loop answers what the
    linear scan of the whole table answers. *)
Lemma IsReservedIPv4_while_correct fuel :
  forall left right,
    0 <= left -> right < Z.of_nat (length (mem_ipv4_reserved_ranges m)) ->
    left <= right + 1 -> right - left + 1 < Z.of_nat fuel ->
    (forall i r, index (mem_ipv4_reserved_ranges m) i = Some r ->
                 i < left -> end_ r < ip_host) ->
    (forall i r, index (mem_ipv4_reserved_ranges m) i = Some r ->
                 right < i -> ip_host < start r) ->
    IsReservedIPv4_while fuel ip_host left right m =
    Done (Spec.linear_scan ip_host (mem_ipv4_reserved_ranges m)) m.
Proof.
  pose proof (invariant_separated _ Hinv) as Hsep.
  pose proof (StronglySorted_index _ _ Hsep) as Hidx.
  destruct Hinv as (Hvalid & _ & _). rewrite Forall_forall in Hvalid.
  unfold ends_before, Spec.range_valid in *.
  induction fuel as [|fuel IH]; intros left right Hl Hr Hlr Hf Hlo Hhi; [lia|].
  cbn [IsReservedIPv4_while].
  destruct (Z.leb_spec left right) as [Hle|Hgt].
  - rewrite midpoint by assumption.
    set (mid := (left + right) / 2).
    assert (left <= mid <= right) as Hmid by (apply midpoint_between; assumption).
    destruct (index_in_bounds (mem_ipv4_reserved_ranges m) mid) as [range Hrange];
      [lia|].
    rewrite (run_bind _ _ _ _ _ (run_load_ipv4_range _ _ _ Hrange)).
    destruct Hok as [_ Hlen].
    rewrite Z.geb_leb.
    destruct (Z.leb_spec (start range) ip_host) as [Hs|Hs]; cbn [andb].
    + destruct (Z.leb_spec ip_host (end_ range)) as [He|He].
      * rewrite linear_scan_hit; [reflexivity|].
        exists range. split; [eapply index_In; eauto | lia].
      * destruct (Z.ltb_spec ip_host (start range)); [lia|].
        rewrite int_add_small by lia. apply IH; try lia; [|assumption].
        intros i r Hi Hlt.
        destruct (Z.eq_dec i mid) as [->|Hne]; [congruence|].
        assert (end_ r < start range) by (apply (Hidx i mid); auto; lia).
        assert (start range <= end_ range)
          by (apply Hvalid; eapply index_In; eauto).
        lia.
    + destruct (Z.ltb_spec ip_host (start range)); [|lia].
      rewrite int_sub_small by lia. apply IH; try lia; [assumption|].
      intros i r Hi Hlt.
      destruct (Z.eq_dec i mid) as [->|Hne]; [congruence|].
      assert (end_ range < start r) by (apply (Hidx mid i); auto; lia).
      assert (start range <= end_ range)
        by (apply Hvalid; eapply index_In; eauto).
      lia.
  - rewrite linear_scan_miss; [reflexivity|].
    intros r Hin Hr'. apply In_index in Hin as [i Hi].
    destruct (Z.lt_ge_cases i left) as [Hlt|Hge].
    + specialize (Hlo _ _ Hi Hlt). lia.
    + assert (right < i) as Hri by lia. specialize (Hhi _ _ Hi Hri). lia.
Qed.

(** The whole function, over any storage that is consistent and sorted. *)
Lemma IsReservedIPv4_refines_linear_scan fuel :
  Z.of_nat (length (mem_ipv4_reserved_ranges m)) < Z.of_nat fuel ->
  IsReservedIPv4 fuel ip_host m =
  Done (Spec.linear_scan ip_host (mem_ipv4_reserved_ranges m)) m.
Proof.
  intros Hf. destruct Hok as [Hc Hlen].
  unfold IsReservedIPv4, bind, load_ipv4_ranges_count. rewrite Hc.
  rewrite int_sub_small by lia.
  apply IsReservedIPv4_while_correct; try lia.
  - intros i r Hi Hlt. apply index_bounds in Hi. lia.
  - intros i r Hi Hlt. apply index_bounds in Hi. lia.
Qed.

End BinarySearch.

Lemma covered_ranges_table :
  Spec.covered_ranges = map (fun r => (start r, end_ r)) ipv4_reserved_ranges.
Proof. reflexivity. Qed.

Lemma covered_prefixes_table :
  map Spec.prefix_of_groups Spec.covered_prefixes = ipv6_reserved_prefixes.
Proof. reflexivity. Qed.

Lemma initial_memory_ipv4_ok : ipv4_storage_ok initial_memory.
Proof. split; [reflexivity | cbv; reflexivity]. Qed.

Lemma ipv4_table_invariant : Spec.table_invariant ipv4_reserved_ranges.
Proof.
  unfold Spec.table_invariant, ipv4_reserved_ranges. repeat split.
  - repeat constructor; unfold Spec.range_valid; simpl; lia.
  - repeat constructor; unfold Spec.starts_ascending; simpl; lia.
  - repeat constructor; intros (a & ? & ?); simpl in *; lia.
Qed.

Lemma IsReservedIPv4_initial fuel a :
  (10 <= fuel)%nat ->
  IsReservedIPv4 fuel a initial_memory =
  Done (Spec.linear_scan a ipv4_reserved_ranges) initial_memory.
Proof.
  intros Hf.
  apply (IsReservedIPv4_refines_linear_scan initial_memory a
           initial_memory_ipv4_ok ipv4_table_invariant).
  simpl. lia.
Qed.

(* ------------------------------------------------------------------ *)
(** ** IPv6: the prefix matcher and the linear scan *)
(* ------------------------------------------------------------------ *)

Lemma bytes_eqb_eq xs ys : Spec.bytes_eqb xs ys = true <-> xs = ys.
Proof.
  revert ys. induction xs as [|x xs IH]; intros [|y ys]; simpl;
    try (split; [discriminate | congruence]); [tauto|].
  rewrite andb_true_iff, Z.eqb_eq, IH. split.
  - intros [-> ->]. reflexivity.
  - intros [= -> ->]. auto.
Qed.

Lemma is_address_length ip : is_address ip = true -> length ip = 16%nat.
Proof.
  unfold is_address. rewrite andb_true_iff, Nat.eqb_eq. tauto.
Qed.

Lemma is_address_byte ip i a :
  is_address ip = true -> index ip i = Some a -> 0 <= a < 256.
Proof.
  unfold is_address. rewrite andb_true_iff, forallb_forall.
  intros [_ H] Hi. apply index_In in Hi. apply H in Hi.
  unfold is_uint8 in Hi. apply andb_true_iff in Hi. lia.
Qed.

Lemma index_skipn {A} (l : list A) i a :
  index l i = Some a ->
  skipn (Z.to_nat i) l = a :: skipn (Z.to_nat (i + 1)) l.
Proof.
  intros H. pose proof (index_bounds _ _ _ H) as B.
  unfold index in H. destruct (Z.ltb_spec i 0); [lia|].
  replace (Z.to_nat (i + 1)) with (S (Z.to_nat i)) by lia.
  revert H. generalize (Z.to_nat i). clear.
  induction l as [|x l IH]; intros [|n] H; simpl in *; try discriminate.
  - congruence.
  - auto.
Qed.

Lemma index_nth {A} (l : list A) i a d :
  index l i = Some a -> nth (Z.to_nat i) l d = a.
Proof.
  unfold index. destruct (i <? 0); [discriminate|]. apply nth_error_nth.
Qed.

Lemma land_to_uint8 a mask :
  0 <= a < 256 -> Z.land a (to_uint8 mask) = Z.land a mask.
Proof.
  intros H. unfold to_uint8.
  rewrite <- Z.land_ones by lia.
  rewrite (Z.land_comm mask), Z.land_assoc.
  rewrite Z.land_ones by lia.
  rewrite (Z.mod_small a) by (change (2 ^ 8) with 256; lia).
  reflexivity.
Qed.

Lemma byte_mask_in_int k : 0 <= k <= 8 -> int_shl 0xFF k = Z.shiftl 0xFF k.
Proof.
  intros H. unfold int_shl. apply to_int_small.
  assert (k = 0 \/ k = 1 \/ k = 2 \/ k = 3 \/ k = 4 \/ k = 5 \/ k = 6 \/
          k = 7 \/ k = 8) as Hk by lia.
  repeat (destruct Hk as [->|Hk]); try subst k; cbv; split; congruence.
Qed.

Section PrefixMatch.

Variable m : Memory.
Variable ip : list Z.
Hypothesis Hip : is_address ip = true.

Section Entry.

Variable p : Z.
Variable e : IPv6Prefix.
Hypothesis Hp : index (mem_ipv6_reserved_prefixes m) p = Some e.
Hypothesis He : prefix_ok e.

Lemma ipv6_matches_prefix_for_spec n fuel :
  n <= 16 ->
  forall i, 0 <= i <= n -> n - i < Z.of_nat fuel ->
  ipv6_matches_prefix_for fuel ip p n i m =
  Done (if Spec.bytes_eqb
             (firstn (Z.to_nat (n - i)) (skipn (Z.to_nat i) ip))
             (firstn (Z.to_nat (n - i)) (skipn (Z.to_nat i) (prefix e)))
        then None else Some 0) m.
Proof.
  intros Hn. destruct He as [Hpre _].
  pose proof (is_address_length _ Hip) as Lip.
  pose proof (is_address_length _ Hpre) as Lpre.
  induction fuel as [|fuel IH]; intros i Hi Hf; [lia|].
  cbn [ipv6_matches_prefix_for].
  destruct (Z.ltb_spec i n) as [Hlt|Hge].
  - destruct (index_in_bounds ip i) as [a Ha]; [lia|].
    destruct (index_in_bounds (prefix e) i) as [b Hb]; [lia|].
    rewrite (run_bind _ _ _ _ _ (run_load_byte _ _ _ m Ha)).
    rewrite (run_bind _ _ _ _ _ (run_load_prefix_byte _ _ _ _ _ Hp Hb)).
    rewrite (index_skipn _ _ _ Ha), (index_skipn _ _ _ Hb).
    replace (Z.to_nat (n - i)) with (S (Z.to_nat (n - (i + 1)))) by lia.
    cbn [firstn Spec.bytes_eqb].
    destruct (a =? b); cbn [negb andb]; [|reflexivity].
    rewrite int_add_small by lia. apply IH; lia.
  - replace (Z.to_nat (n - i)) with 0%nat by lia. reflexivity.
Qed.

Lemma ipv6_matches_prefix_spec fuel :
  (16 < fuel)%nat ->
  ipv6_matches_prefix fuel ip p m =
  Done (if Spec.prefix_match ip e then 1 else 0) m.
Proof.
  intros Hf. destruct He as [Hpre Hlen].
  pose proof (is_address_length _ Hip) as Lip.
  pose proof (is_address_length _ Hpre) as Lpre.
  unfold ipv6_matches_prefix.
  rewrite (run_bind _ _ _ _ _ (run_load_prefix_len _ _ _ Hp)).
  rewrite int_div_nonneg, int_rem_nonneg by lia.
  assert (0 <= prefix_len e / 8 <= 16) as Hn
      by (split; [apply Z.div_pos | apply Z.div_le_upper_bound]; lia).
  pose proof (Z.mod_pos_bound (prefix_len e) 8 ltac:(lia)) as Hr.
  pose proof (Z.div_mod (prefix_len e) 8 ltac:(lia)) as Hdm.
  erewrite run_bind by (apply ipv6_matches_prefix_for_spec; lia).
  unfold Spec.prefix_match.
  rewrite Z.sub_0_r. cbn [Z.to_nat skipn].
  destruct (Spec.bytes_eqb _ _); cbn [andb]; [|reflexivity].
  rewrite Z.gtb_ltb.
  destruct (Z.ltb_spec 0 (prefix_len e mod 8)) as [Hpos|Hzero].
  - destruct (Z.eqb_spec (prefix_len e mod 8) 0) as [|_]; [lia|].
    cbn [orb].
    destruct (index_in_bounds ip (prefix_len e / 8)) as [a Ha]; [lia|].
    destruct (index_in_bounds (prefix e) (prefix_len e / 8)) as [b Hb]; [lia|].
    rewrite (run_bind _ _ _ _ _ (run_load_byte _ _ _ m Ha)).
    rewrite (run_bind _ _ _ _ _ (run_load_prefix_byte _ _ _ _ _ Hp Hb)).
    rewrite int_sub_small by lia.
    rewrite byte_mask_in_int by lia.
    rewrite (land_to_uint8 a) by exact (is_address_byte _ _ _ Hip Ha).
    rewrite (land_to_uint8 b) by exact (is_address_byte _ _ _ Hpre Hb).
    rewrite (index_nth _ _ _ 0 Ha), (index_nth _ _ _ 0 Hb).
    destruct (_ =? _); reflexivity.
  - destruct (Z.eqb_spec (prefix_len e mod 8) 0) as [_|]; [|lia].
    reflexivity.
Qed.

End Entry.

Hypothesis Hok : ipv6_storage_ok m.

Lemma IsReservedIPv6_for_spec fuel :
  forall i,
    0 <= i <= Z.of_nat (length (mem_ipv6_reserved_prefixes m)) ->
    Z.of_nat (length (mem_ipv6_reserved_prefixes m)) - i + 17 < Z.of_nat fuel ->
    IsReservedIPv6_for fuel ip i m =
    Done (if existsb (Spec.prefix_match ip)
                     (skipn (Z.to_nat i) (mem_ipv6_reserved_prefixes m))
          then 1 else 0) m.
Proof.
  destruct Hok as (Hc & Hlen & Hall). rewrite Forall_forall in Hall.
  induction fuel as [|fuel IH]; intros i Hi Hf; [lia|].
  cbn [IsReservedIPv6_for].
  unfold bind at 1, load_ipv6_prefixes_count. rewrite Hc.
  destruct (Z.ltb_spec i (Z.of_nat (length (mem_ipv6_reserved_prefixes m))))
    as [Hlt|Hge].
  - destruct (index_in_bounds (mem_ipv6_reserved_prefixes m) i) as [e He]; [lia|].
    assert (prefix_ok e) as Hwf by (apply Hall; eapply index_In; eauto).
    erewrite run_bind by (apply (ipv6_matches_prefix_spec i e He Hwf); lia).
    rewrite (index_skipn _ _ _ He). cbn [existsb].
    destruct (Spec.prefix_match ip e); cbn [Z.eqb negb orb ret]; [reflexivity|].
    rewrite int_add_small by lia. apply IH; lia.
  - rewrite skipn_all2 by lia. reflexivity.
Qed.

Lemma IsReservedIPv6_spec fuel :
  Z.of_nat (length (mem_ipv6_reserved_prefixes m)) + 17 < Z.of_nat fuel ->
  IsReservedIPv6 fuel (Some ip) m =
  Done (if existsb (Spec.prefix_match ip) (mem_ipv6_reserved_prefixes m)
        then 1 else 0) m.
Proof.
  intros Hf. unfold IsReservedIPv6.
  rewrite IsReservedIPv6_for_spec by lia. reflexivity.
Qed.

End PrefixMatch.

Lemma initial_memory_ipv6_ok : ipv6_storage_ok initial_memory.
Proof.
  split; [reflexivity|]. split; [cbv; reflexivity|].
  cbn [mem_ipv6_reserved_prefixes initial_memory]. unfold ipv6_reserved_prefixes.
  repeat constructor; cbn; lia.
Qed.

Lemma IsReservedIPv6_initial fuel ip :
  (26 <= fuel)%nat -> is_address ip = true ->
  IsReservedIPv6 fuel (Some ip) initial_memory =
  Done (if existsb (Spec.prefix_match ip) ipv6_reserved_prefixes then 1 else 0)
       initial_memory.
Proof.
  intros Hf Hip.
  apply (IsReservedIPv6_spec initial_memory ip Hip initial_memory_ipv6_ok).
  simpl. lia.
Qed.

(* ------------------------------------------------------------------ *)
(** ** Absence of writes *)
(* ------------------------------------------------------------------ *)

Lemma read_only_ret {A} (a : A) : read_only (ret a).
Proof. intros m a' m' [= _ <-]. reflexivity. Qed.

Lemma read_only_bind {A B} (c : M A) (k : A -> M B) :
  read_only c -> (forall a, read_only (k a)) -> read_only (bind c k).
Proof.
  intros Hc Hk m b m'. unfold bind.
  destruct (c m) as [a m1| |] eqn:E; try discriminate.
  intros H. apply Hk in H. apply Hc in E. congruence.
Qed.

Lemma read_only_lift_read {A} (o : option A) : read_only (lift_read o).
Proof. destruct o; intros m a' m'; cbn; [intros [= _ <-]; reflexivity | discriminate]. Qed.

Lemma read_only_load_ipv4_range i : read_only (load_ipv4_range i).
Proof. intros m a m' H. exact (read_only_lift_read _ _ _ _ H). Qed.

Lemma read_only_load_ipv4_ranges_count : read_only load_ipv4_ranges_count.
Proof. intros m a m' [= _ <-]. reflexivity. Qed.

Lemma read_only_load_ipv6_prefixes_count : read_only load_ipv6_prefixes_count.
Proof. intros m a m' [= _ <-]. reflexivity. Qed.

Lemma read_only_load_prefix_len p : read_only (load_prefix_len p).
Proof. intros m a m' H. exact (read_only_lift_read _ _ _ _ H). Qed.

Lemma read_only_load_prefix_byte p j : read_only (load_prefix_byte p j).
Proof.
  intros m a m'. unfold load_prefix_byte.
  destruct (index (mem_ipv6_reserved_prefixes m) p); [|discriminate].
  apply read_only_lift_read.
Qed.

Lemma read_only_load_byte ip i : read_only (load_byte ip i).
Proof. apply read_only_lift_read. Qed.

Lemma read_only_out_of_fuel {A} : read_only (@out_of_fuel A).
Proof. intros m a m'. discriminate. Qed.

Create HintDb read_only.

#[local] Hint Resolve read_only_ret read_only_lift_read read_only_load_ipv4_range
  read_only_load_ipv4_ranges_count read_only_load_ipv6_prefixes_count
  read_only_load_prefix_len read_only_load_prefix_byte read_only_load_byte
  read_only_out_of_fuel : read_only.

Ltac read_only_step :=
  match goal with
  | |- read_only (bind _ _) => apply read_only_bind; [|intros ?]
  | |- read_only (if ?b then _ else _) => destruct b
  | |- read_only (match ?o with Some _ => _ | None => _ end) => destruct o
  | |- read_only _ => solve [auto with read_only]
  end.

Lemma read_only_ipv6_matches_prefix_for fuel ip p n :
  forall i, read_only (ipv6_matches_prefix_for fuel ip p n i).
Proof.
  induction fuel as [|fuel IH]; intros i; cbn [ipv6_matches_prefix_for];
    repeat read_only_step.
Qed.

Lemma read_only_ipv6_matches_prefix fuel ip p :
  read_only (ipv6_matches_prefix fuel ip p).
Proof.
  unfold ipv6_matches_prefix.
  apply read_only_bind; [auto with read_only | intros len].
  apply read_only_bind; [apply read_only_ipv6_matches_prefix_for | intros r].
  repeat read_only_step.
Qed.

Lemma read_only_IsReservedIPv4_while fuel ip_host :
  forall left right, read_only (IsReservedIPv4_while fuel ip_host left right).
Proof.
  induction fuel as [|fuel IH]; intros left right; cbn [IsReservedIPv4_while];
    repeat read_only_step.
Qed.

Lemma read_only_IsReservedIPv4 fuel ip_host :
  read_only (IsReservedIPv4 fuel ip_host).
Proof.
  unfold IsReservedIPv4. read_only_step; [auto with read_only|].
  apply read_only_IsReservedIPv4_while.
Qed.

Lemma read_only_IsReservedIPv6_for fuel ip :
  forall i, read_only (IsReservedIPv6_for fuel ip i).
Proof.
  induction fuel as [|fuel IH]; intros i; cbn [IsReservedIPv6_for];
    [auto with read_only|].
  apply read_only_bind; [auto with read_only | intros count].
  destruct (i <? count); [|auto with read_only].
  apply read_only_bind; [apply read_only_ipv6_matches_prefix | intros r].
  destruct (negb (r =? 0)); [auto with read_only | apply IH].
Qed.

Lemma read_only_IsReservedIPv6 fuel ip16 :
  read_only (IsReservedIPv6 fuel ip16).
Proof.
  destruct ip16; cbn; [apply read_only_IsReservedIPv6_for | auto with read_only].
Qed.

Lemma twice_same {A} (c : M A) m r :
  c m = Done r m -> twice c m = Done (r, r) m.
Proof.
  intros H. unfold twice.
  rewrite (run_bind _ _ _ _ _ H), (run_bind _ _ _ _ _ H). reflexivity.
Qed.

(* ------------------------------------------------------------------ *)
(** ** Prefix matching and leading bits *)
(* ------------------------------------------------------------------ *)

Lemma be_value_acc bs : forall acc,
  fold_left (fun acc b => acc * 256 + b) bs acc =
  acc * 256 ^ Z.of_nat (length bs) + Spec.be_value bs.
Proof.
  unfold Spec.be_value.
  induction bs as [|b bs IH]; intros acc.
  - simpl. lia.
  - cbn [fold_left length]. rewrite IH, (IH (0 * 256 + b)).
    rewrite Nat2Z.inj_succ, Z.pow_succ_r by lia. ring.
Qed.

Lemma be_value_cons b bs :
  Spec.be_value (b :: bs) = b * 256 ^ Z.of_nat (length bs) + Spec.be_value bs.
Proof.
  unfold Spec.be_value at 1. cbn [fold_left]. rewrite be_value_acc. ring.
Qed.

Lemma be_value_app xs ys :
  Spec.be_value (xs ++ ys) =
  Spec.be_value xs * 256 ^ Z.of_nat (length ys) + Spec.be_value ys.
Proof.
  unfold Spec.be_value at 1 2. rewrite fold_left_app, be_value_acc. reflexivity.
Qed.

Lemma be_value_bound bs :
  forallb is_uint8 bs = true -> 0 <= Spec.be_value bs < 256 ^ Z.of_nat (length bs).
Proof.
  induction bs as [|b bs IH]; intros H.
  - cbv. split; congruence.
  - cbn [forallb] in H. apply andb_true_iff in H as [Hb Hbs].
    specialize (IH Hbs). rewrite be_value_cons.
    unfold is_uint8 in Hb. apply andb_true_iff in Hb as [H0 H1].
    apply Z.leb_le in H0. apply Z.ltb_lt in H1.
    cbn [length]. rewrite Nat2Z.inj_succ, Z.pow_succ_r by lia. nia.
Qed.

Lemma be_value_inj xs : forall ys,
  length xs = length ys ->
  forallb is_uint8 xs = true -> forallb is_uint8 ys = true ->
  Spec.be_value xs = Spec.be_value ys -> xs = ys.
Proof.
  induction xs as [|x xs IH]; intros [|y ys] Hlen Hx Hy Hv; try discriminate;
    [reflexivity|].
  cbn [forallb] in Hx, Hy.
  apply andb_true_iff in Hx as [_ Hxs]. apply andb_true_iff in Hy as [_ Hys].
  injection Hlen as Hlen.
  rewrite !be_value_cons, Hlen in Hv.
  pose proof (be_value_bound _ Hxs) as Bx.
  pose proof (be_value_bound _ Hys) as By. rewrite Hlen in Bx.
  assert (x = y) as -> by nia.
  f_equal. apply IH; auto. lia.
Qed.

Lemma byte_testbit_high x n : 0 <= x < 256 -> 8 <= n -> Z.testbit x n = false.
Proof.
  intros Hx Hn. destruct (Z.eq_dec x 0) as [->|Hne]; [apply Z.bits_0|].
  apply Z.bits_above_log2; [lia|].
  assert (Z.log2 x < 8) by (apply Z.log2_lt_pow2; lia). lia.
Qed.

Lemma land_high_mask x k :
  0 <= x < 256 -> 0 <= k ->
  Z.land x (Z.shiftl 0xFF k) = x / 2 ^ k * 2 ^ k.
Proof.
  intros Hx Hk.
  rewrite <- Z.shiftr_div_pow2, <- Z.shiftl_mul_pow2 by lia.
  apply Z.bits_inj'. intros n Hn.
  rewrite Z.land_spec, !Z.shiftl_spec by lia.
  destruct (Z.lt_ge_cases n k) as [Hlt|Hge].
  - rewrite !(Z.testbit_neg_r _ (n - k)) by lia. apply andb_false_r.
  - rewrite Z.shiftr_spec by lia. replace (n - k + k) with n by lia.
    destruct (Z.lt_ge_cases (n - k) 8) as [Hlow|Hhigh].
    + change 255 with (Z.ones 8). rewrite Z.ones_spec_low by lia.
      apply andb_true_r.
    + rewrite (byte_testbit_high x n) by lia. reflexivity.
Qed.

Lemma masked_eq_iff x y k :
  0 <= x < 256 -> 0 <= y < 256 -> 0 <= k ->
  Z.land x (Z.shiftl 0xFF k) = Z.land y (Z.shiftl 0xFF k) <->
  x / 2 ^ k = y / 2 ^ k.
Proof.
  intros Hx Hy Hk. rewrite !land_high_mask by assumption.
  assert (0 < 2 ^ k) by (apply Z.pow_pos_nonneg; lia).
  split; [nia | congruence].
Qed.

Lemma is_address_bytes ip : is_address ip = true -> forallb is_uint8 ip = true.
Proof. unfold is_address. rewrite andb_true_iff. tauto. Qed.

Lemma forallb_firstn_skipn {A} (f : A -> bool) n l :
  forallb f l = true ->
  forallb f (firstn n l) = true /\ forallb f (skipn n l) = true.
Proof.
  intros H. rewrite <- (firstn_skipn n l), forallb_app in H.
  now apply andb_true_iff in H.
Qed.

Lemma nth_byte ip i : is_address ip = true -> 0 <= nth i ip 0 < 256.
Proof.
  intros H. apply is_address_bytes in H. rewrite forallb_forall in H.
  destruct (Nat.lt_ge_cases i (length ip)) as [Hlt|Hge].
  - specialize (H _ (nth_In ip 0 Hlt)). unfold is_uint8 in H.
    apply andb_true_iff in H. lia.
  - rewrite nth_overflow by assumption. lia.
Qed.

(** The [8 * q + r] leading bits of an address: the first [q] bytes followed
    by the [r] high bits of the next byte. *)
Lemma leading_bits_split ip q r :
  is_address ip = true ->
  0 <= q -> 0 <= r < 8 -> 8 * q + r <= 128 ->
  Spec.leading_bits (8 * q + r) ip =
  Spec.be_value (firstn (Z.to_nat q) ip) * 2 ^ r +
  nth (Z.to_nat q) ip 0 / 2 ^ (8 - r).
Proof.
  intros Hip Hq Hr Hlen.
  pose proof (is_address_length _ Hip) as Lip.
  pose proof (is_address_bytes _ Hip) as Bip.
  unfold Spec.leading_bits. rewrite Z.shiftr_div_pow2 by lia.
  destruct (Z.eq_dec q 16) as [->|Hq16].
  - assert (r = 0) as -> by lia.
    rewrite firstn_all2 by lia. rewrite nth_overflow by lia.
    change (128 - (8 * 16 + 0)) with 0. cbn [Z.pow]. rewrite Z.div_1_r.
    rewrite Z.mul_1_r, Zdiv_0_l. lia.
  - rewrite <- (firstn_skipn (Z.to_nat q) ip) at 1.
    destruct (index_in_bounds ip q) as [x Hx]; [lia|].
    rewrite (index_skipn _ _ _ Hx), (index_nth _ _ _ 0 Hx).
    set (front := firstn (Z.to_nat q) ip).
    set (rest := skipn (Z.to_nat (q + 1)) ip).
    assert (Z.of_nat (length rest) = 15 - q) as Lrest
        by (unfold rest; rewrite length_skipn; lia).
    assert (0 <= Spec.be_value rest < 256 ^ (15 - q)) as Brest.
    { rewrite <- Lrest. apply be_value_bound. apply forallb_firstn_skipn, Bip. }
    pose proof (is_address_byte _ _ _ Hip Hx) as Bx.
    rewrite be_value_app, be_value_cons. cbn [length].
    rewrite Nat2Z.inj_succ, Lrest.
    replace (128 - (8 * q + r)) with (8 * (15 - q) + (8 - r)) by lia.
    rewrite Z.pow_add_r, Z.pow_mul_r by lia. change (2 ^ 8) with 256.
    rewrite Z.pow_succ_r by lia.
    set (P := 256 ^ (15 - q)) in *.
    assert (0 < P) by (apply Z.pow_pos_nonneg; lia).
    rewrite <- Z.div_div by (try apply Z.pow_pos_nonneg; lia).
    replace (Spec.be_value front * (256 * P) + (x * P + Spec.be_value rest))
      with ((Spec.be_value front * 256 + x) * P + Spec.be_value rest) by ring.
    rewrite Z.div_add_l by lia. rewrite (Z.div_small _ P) by lia.
    rewrite Z.add_0_r.
    replace 256 with (2 ^ r * 2 ^ (8 - r))
      by (rewrite <- Z.pow_add_r by lia; replace (r + (8 - r)) with 8 by lia;
          reflexivity).
    rewrite Z.mul_assoc.
    rewrite Z.div_add_l by (apply Z.pow_nonzero; lia). reflexivity.
Qed.

Lemma radix_unique P A B a b :
  0 <= a < P -> 0 <= b < P -> A * P + a = B * P + b -> A = B /\ a = b.
Proof.
  intros Ha Hb H.
  assert ((A * P + a) / P = A) as HA
      by (rewrite Z.div_add_l, Z.div_small; lia).
  assert ((B * P + b) / P = B) as HB
      by (rewrite Z.div_add_l, Z.div_small; lia).
  rewrite H, HB in HA. subst B. lia.
Qed.

Lemma high_bits_bound x r : 0 <= x < 256 -> 0 <= r < 8 -> 0 <= x / 2 ^ (8 - r) < 2 ^ r.
Proof.
  intros Hx Hr.
  assert (0 < 2 ^ (8 - r)) by (apply Z.pow_pos_nonneg; lia).
  split; [apply Z.div_pos; lia|].
  apply Z.div_lt_upper_bound; [lia|].
  rewrite <- Z.pow_add_r by lia. replace (8 - r + r) with 8 by lia.
  change (2 ^ 8) with 256. lia.
Qed.

(** The byte-and-mask comparison of the specification decides equality of
    the [prefix_len] leading bits. *)
Lemma prefix_match_leading_bits ip e :
  is_address ip = true -> prefix_ok e ->
  Spec.prefix_match ip e = true <->
  Spec.leading_bits (prefix_len e) ip = Spec.leading_bits (prefix_len e) (prefix e).
Proof.
  intros Hip [Hpre Hlen].
  set (q := prefix_len e / 8). set (r := prefix_len e mod 8).
  assert (prefix_len e = 8 * q + r) as Hqr by (apply Z.div_mod; lia).
  assert (0 <= r < 8) as Hr by (apply Z.mod_pos_bound; lia).
  assert (0 <= q) as Hq by (apply Z.div_pos; lia).
  rewrite Hqr at 1 2.
  rewrite (leading_bits_split ip q r), (leading_bits_split (prefix e) q r)
    by (try assumption; lia).
  unfold Spec.prefix_match. fold q r.
  rewrite andb_true_iff, orb_true_iff, bytes_eqb_eq, !Z.eqb_eq.
  set (x := nth (Z.to_nat q) ip 0). set (y := nth (Z.to_nat q) (prefix e) 0).
  assert (0 <= x < 256) as Bx by (apply nth_byte; assumption).
  assert (0 <= y < 256) as By by (apply nth_byte; assumption).
  pose proof (high_bits_bound x r Bx Hr) as Hx.
  pose proof (high_bits_bound y r By Hr) as Hy.
  assert (0 < 2 ^ r) as Hpow by (apply Z.pow_pos_nonneg; lia).
  split.
  - intros [Hfront Hmask]. rewrite Hfront. f_equal.
    destruct Hmask as [Hz|Hmask].
    + rewrite Hz in *. change (2 ^ 0) with 1 in *. lia.
    + apply masked_eq_iff in Hmask; try assumption; lia.
  - intros Heq.
    assert (Spec.be_value (firstn (Z.to_nat q) ip) =
            Spec.be_value (firstn (Z.to_nat q) (prefix e)) /\
            x / 2 ^ (8 - r) = y / 2 ^ (8 - r)) as [Hv Hh]
        by (apply (radix_unique (2 ^ r)); assumption).
    split.
    + apply be_value_inj; [| | |assumption].
      * rewrite !length_firstn, (is_address_length _ Hip),
          (is_address_length _ Hpre). reflexivity.
      * apply forallb_firstn_skipn, is_address_bytes, Hip.
      * apply forallb_firstn_skipn, is_address_bytes, Hpre.
    + right. apply masked_eq_iff; try assumption; lia.
Qed.

Lemma prefix_match_eqb ip e :
  is_address ip = true -> prefix_ok e ->
  Spec.prefix_match ip e =
  (Spec.leading_bits (prefix_len e) ip =? Spec.leading_bits (prefix_len e) (prefix e)).
Proof.
  intros Hip He. apply eq_true_iff_eq.
  rewrite (prefix_match_leading_bits ip e Hip He), Z.eqb_eq. reflexivity.
Qed.

Lemma ipv6_table_entries_ok e : In e ipv6_reserved_prefixes -> prefix_ok e.
Proof.
  pose proof initial_memory_ipv6_ok as (_ & _ & H).
  rewrite Forall_forall in H. apply H.
Qed.

(* ------------------------------------------------------------------ *)
(** ** IPv4: whole-function facts over the initial storage *)
(* ------------------------------------------------------------------ *)

Lemma IsReservedIPv4_terminates m fuel a :
  ipv4_storage_ok m ->
  Z.of_nat (length (mem_ipv4_reserved_ranges m)) < Z.of_nat fuel ->
  exists r, IsReservedIPv4 fuel a m = Done r m /\ (r = 0 \/ r = 1).
Proof.
  intros Hok Hf. pose proof Hok as [Hc Hlen].
  unfold IsReservedIPv4, bind, load_ipv4_ranges_count. rewrite Hc.
  rewrite int_sub_small by lia.
  apply IsReservedIPv4_while_terminates; auto; lia.
Qed.

Lemma covered_range_entry lo hi :
  In (lo, hi) Spec.covered_ranges <-> In (mkIPv4Range lo hi) ipv4_reserved_ranges.
Proof.
  rewrite covered_ranges_table, in_map_iff. split.
  - intros ([s e] & [= <- <-] & Hin). exact Hin.
  - intros Hin. exists (mkIPv4Range lo hi). auto.
Qed.

Lemma linear_scan_gap a i r1 r2 :
  index ipv4_reserved_ranges i = Some r1 ->
  index ipv4_reserved_ranges (i + 1) = Some r2 ->
  end_ r1 < a < start r2 ->
  Spec.linear_scan a ipv4_reserved_ranges = 0.
Proof.
  intros H1 H2 Ha. apply linear_scan_miss. intros r Hin Hr.
  pose proof (StronglySorted_index _ _ (invariant_separated _ ipv4_table_invariant))
    as Hsep. unfold ends_before in Hsep.
  destruct ipv4_table_invariant as (Hvalid & _ & _).
  rewrite Forall_forall in Hvalid. unfold Spec.range_valid in Hvalid.
  pose proof (Hvalid _ (index_In _ _ _ H1)) as V1.
  pose proof (Hvalid _ (index_In _ _ _ H2)) as V2.
  apply In_index in Hin as [j Hj].
  destruct (Z.lt_trichotomy j i) as [Hlt|[->|Hgt]].
  - pose proof (Hsep j i r r1 Hj H1 Hlt). lia.
  - assert (r = r1) by congruence. subst. lia.
  - destruct (Z.eq_dec j (i + 1)) as [->|Hne].
    + assert (r = r2) by congruence. subst. lia.
    + assert (i + 1 < j) as Hlt by lia.
      pose proof (Hsep (i + 1) j r2 r H2 Hj Hlt). lia.
Qed.

(* ------------------------------------------------------------------ *)
(** ** The properties of the specification *)
(* ------------------------------------------------------------------ *)

(** C1.  For every entry of the IPv4 table (equivalently, for each of the
    nine ranges the specification lists) and every address [a] with
    [start <= a <= end], [IsReservedIPv4 a] returns 1. *)
Theorem IsReservedIPv4_inside_range (fuel : nat) (r : IPv4Range) (a : Z) :
  (10 <= fuel)%nat ->
  In r ipv4_reserved_ranges \/ In (start r, end_ r) Spec.covered_ranges ->
  start r <= a <= end_ r ->
  IsReservedIPv4 fuel a initial_memory = Done 1 initial_memory.
Proof.
  intros Hf Hin Ha.
  assert (In r ipv4_reserved_ranges) as Hr.
  { destruct Hin as [H|H]; [exact H|].
    apply covered_range_entry in H. destruct r; exact H. }
  rewrite IsReservedIPv4_initial by assumption.
  rewrite linear_scan_hit; eauto.
Qed.

Lemma IsReservedIPv4_inside_range_witness :
  (10 <= 10)%nat /\
  In (0xC0000200, 0xC00002FF) Spec.covered_ranges /\
  0xC0000200 <= 0xC0000203 <= 0xC00002FF /\
  IsReservedIPv4 10 0xC0000203 initial_memory = Done 1 initial_memory.
Proof.
  assert (In (0xC0000200, 0xC00002FF) Spec.covered_ranges) as Hin
      by (simpl; tauto).
  split; [lia|]. split; [exact Hin|]. split; [lia|].
  apply (IsReservedIPv4_inside_range 10 (mkIPv4Range 0xC0000200 0xC00002FF));
    [lia | right; exact Hin | simpl; lia].
Defined.

(** C2.  For every 32-bit address that lies in none of the nine ranges
    [IsReservedIPv4] returns 0; in particular for every address strictly
    between the end of one table entry and the start of the next. *)
Theorem IsReservedIPv4_outside_ranges (fuel : nat) (a : Z) :
  (10 <= fuel)%nat -> is_uint32 a = true ->
  ((forall lo hi, In (lo, hi) Spec.covered_ranges -> ~ (lo <= a <= hi)) ->
   IsReservedIPv4 fuel a initial_memory = Done 0 initial_memory) /\
  (forall i r1 r2,
      index ipv4_reserved_ranges i = Some r1 ->
      index ipv4_reserved_ranges (i + 1) = Some r2 ->
      end_ r1 < a < start r2 ->
      IsReservedIPv4 fuel a initial_memory = Done 0 initial_memory).
Proof.
  intros Hf _. split.
  - intros Hout. rewrite IsReservedIPv4_initial by assumption.
    rewrite linear_scan_miss; [reflexivity|].
    intros r Hin. apply (Hout (start r) (end_ r)).
    rewrite covered_ranges_table.
    apply (in_map (fun r => (start r, end_ r))), Hin.
  - intros i r1 r2 H1 H2 Ha. rewrite IsReservedIPv4_initial by assumption.
    now rewrite (linear_scan_gap a i r1 r2).
Qed.

Lemma IsReservedIPv4_outside_ranges_witness :
  IsReservedIPv4 10 0x01000000 initial_memory = Done 0 initial_memory /\
  IsReservedIPv4 10 0xDFFFFFFF initial_memory = Done 0 initial_memory.
Proof.
  split.
  - apply (IsReservedIPv4_outside_ranges 10 0x01000000); [lia | reflexivity |].
    intros lo hi Hin Ha. simpl in Hin.
    repeat (destruct Hin as [Hin|Hin]; [injection Hin as <- <-; lia|]).
    contradiction.
  - apply (proj2 (IsReservedIPv4_outside_ranges 10 0xDFFFFFFF
                    ltac:(lia) eq_refl) 7
                 (mkIPv4Range 0xCB007100 0xCB0071FF)
                 (mkIPv4Range 0xE0000000 0xFFFFFFFF));
      [reflexivity | reflexivity | simpl; lia].
Defined.

(** C5.  The static IPv4 table satisfies the invariant binary search needs:
    every entry has [start <= end], the entries are strictly ascending by
    [start], and no two entries overlap. *)
Theorem ipv4_reserved_ranges_invariant :
  Spec.table_invariant ipv4_reserved_ranges /\
  Spec.table_invariant (mem_ipv4_reserved_ranges initial_memory).
Proof. split; exact ipv4_table_invariant. Qed.

(** C8.  For every 32-bit input the binary search returns exactly what the
    naive linear scan over the nine ranges returns. *)
Theorem IsReservedIPv4_equals_linear_scan (fuel : nat) (a : Z) :
  (10 <= fuel)%nat -> is_uint32 a = true ->
  IsReservedIPv4 fuel a initial_memory =
  Done (Spec.linear_scan a ipv4_reserved_ranges) initial_memory.
Proof. intros Hf _. now apply IsReservedIPv4_initial. Qed.

Lemma IsReservedIPv4_equals_linear_scan_witness :
  IsReservedIPv4 10 0x64400001 initial_memory =
  Done (Spec.linear_scan 0x64400001 ipv4_reserved_ranges) initial_memory.
Proof.
  apply (IsReservedIPv4_equals_linear_scan 10 0x64400001); [lia | reflexivity].
Defined.

(** C4.  A null address makes [IsReservedIPv6] return 0, whatever the
    storage and the iteration budget: no fault is raised. *)
Theorem IsReservedIPv6_null (fuel : nat) (m : Memory) :
  IsReservedIPv6 fuel None m = Done 0 m.
Proof. reflexivity. Qed.

(** C3.  For every 16-byte address [IsReservedIPv6] returns 1 exactly when
    the address matches one of the eight listed prefixes, a match being the
    comparison the specification describes (complete leading bytes, then the
    masked remainder); otherwise it returns 0.  A match in that sense is the
    same as agreeing with the entry on its [prefix_len] leading bits. *)
Theorem IsReservedIPv6_iff_prefix_match (fuel : nat) (ip : list Z) :
  (26 <= fuel)%nat -> is_address ip = true ->
  exists r,
    IsReservedIPv6 fuel (Some ip) initial_memory = Done r initial_memory /\
    (r = 0 \/ r = 1) /\
    (r = 1 <->
     exists e, In e (map Spec.prefix_of_groups Spec.covered_prefixes) /\
               Spec.prefix_match ip e = true) /\
    (r = 1 <->
     exists e, In e (map Spec.prefix_of_groups Spec.covered_prefixes) /\
               Spec.leading_bits (prefix_len e) ip =
               Spec.leading_bits (prefix_len e) (prefix e)).
Proof.
  intros Hf Hip. rewrite covered_prefixes_table.
  rewrite IsReservedIPv6_initial by assumption.
  destruct (existsb (Spec.prefix_match ip) ipv6_reserved_prefixes) eqn:E.
  - apply existsb_exists in E as (e & Hin & He).
    exists 1. split; [reflexivity|]. split; [auto|]. split.
    + split; [intros _; exists e; auto | reflexivity].
    + split; [intros _|reflexivity]. exists e. split; [exact Hin|].
      apply prefix_match_leading_bits; auto using ipv6_table_entries_ok.
  - exists 0. split; [reflexivity|]. split; [auto|]. split.
    + split; [discriminate|]. intros (e & Hin & He).
      assert (existsb (Spec.prefix_match ip) ipv6_reserved_prefixes = true)
        by (apply existsb_exists; eauto).
      congruence.
    + split; [discriminate|]. intros (e & Hin & He).
      assert (existsb (Spec.prefix_match ip) ipv6_reserved_prefixes = true).
      { apply existsb_exists. exists e. split; [exact Hin|].
        apply prefix_match_leading_bits; auto using ipv6_table_entries_ok. }
      congruence.
Qed.

Lemma IsReservedIPv6_iff_prefix_match_witness :
  exists r,
    IsReservedIPv6 26 (Some [0xFF; 2; 0; 0; 0; 0; 0; 0; 0; 0; 0; 0; 0; 0; 0; 1])
                   initial_memory = Done r initial_memory /\
    (r = 0 \/ r = 1) /\
    (r = 1 <->
     exists e, In e (map Spec.prefix_of_groups Spec.covered_prefixes) /\
               Spec.prefix_match
                 [0xFF; 2; 0; 0; 0; 0; 0; 0; 0; 0; 0; 0; 0; 0; 0; 1] e = true) /\
    (r = 1 <->
     exists e, In e (map Spec.prefix_of_groups Spec.covered_prefixes) /\
               Spec.leading_bits (prefix_len e)
                 [0xFF; 2; 0; 0; 0; 0; 0; 0; 0; 0; 0; 0; 0; 0; 0; 1] =
               Spec.leading_bits (prefix_len e) (prefix e)).
Proof.
  apply (IsReservedIPv6_iff_prefix_match 26); [lia | reflexivity].
Defined.

(** C7.  The three IPv6 vectors of the specification: the all-zero address
    is reserved through the exact match of [::/128], [2001:db8::1] is
    reserved through the /32 documentation prefix, and [2001:db9::] is not
    reserved. *)
Theorem IsReservedIPv6_vectors (fuel : nat) :
  (26 <= fuel)%nat ->
  let unspecified := [0; 0; 0; 0; 0; 0; 0; 0; 0; 0; 0; 0; 0; 0; 0; 0] in
  let doc_1 := [0x20; 0x01; 0x0d; 0xb8; 0; 0; 0; 0; 0; 0; 0; 0; 0; 0; 0; 0x01] in
  let db9 := [0x20; 0x01; 0x0d; 0xb9; 0; 0; 0; 0; 0; 0; 0; 0; 0; 0; 0; 0] in
  (IsReservedIPv6 fuel (Some unspecified) initial_memory = Done 1 initial_memory /\
   ipv6_matches_prefix fuel unspecified 0 initial_memory = Done 1 initial_memory) /\
  (IsReservedIPv6 fuel (Some doc_1) initial_memory = Done 1 initial_memory /\
   ipv6_matches_prefix fuel doc_1 6 initial_memory = Done 1 initial_memory) /\
  IsReservedIPv6 fuel (Some db9) initial_memory = Done 0 initial_memory.
Proof.
  intros Hf unspecified doc_1 db9.
  assert (forall ip p e,
             is_address ip = true ->
             index ipv6_reserved_prefixes p = Some e ->
             ipv6_matches_prefix fuel ip p initial_memory =
             Done (if Spec.prefix_match ip e then 1 else 0) initial_memory) as Hm.
  { intros ip p e Hip Hp.
    apply (ipv6_matches_prefix_spec initial_memory ip Hip p e Hp);
      [apply ipv6_table_entries_ok; eapply index_In; eauto | lia]. }
  split; [split | split; [split|]].
  - rewrite IsReservedIPv6_initial by (auto; reflexivity). reflexivity.
  - erewrite Hm by reflexivity. reflexivity.
  - rewrite IsReservedIPv6_initial by (auto; reflexivity). reflexivity.
  - erewrite Hm by reflexivity. reflexivity.
  - rewrite IsReservedIPv6_initial by (auto; reflexivity). reflexivity.
Qed.

Lemma IsReservedIPv6_vectors_witness :
  IsReservedIPv6 26 (Some [0; 0; 0; 0; 0; 0; 0; 0; 0; 0; 0; 0; 0; 0; 0; 0])
                 initial_memory = Done 1 initial_memory.
Proof.
  apply (IsReservedIPv6_vectors 26). lia.
Defined.

(** C9.  Both classifiers are pure: a call hands back the storage it was
    given, whatever that storage holds, and two successive calls with the
    same argument return the same result. *)
Theorem classifiers_pure (fuel : nat) (a : Z) (ip16 : option (list Z)) :
  (26 <= fuel)%nat -> is_uint32 a = true -> is_argument ip16 = true ->
  read_only (IsReservedIPv4 fuel a) /\
  read_only (IsReservedIPv6 fuel ip16) /\
  (exists r, twice (IsReservedIPv4 fuel a) initial_memory =
             Done (r, r) initial_memory) /\
  (exists r, twice (IsReservedIPv6 fuel ip16) initial_memory =
             Done (r, r) initial_memory).
Proof.
  intros Hf _ Harg. split; [|split; [|split]].
  - apply read_only_IsReservedIPv4.
  - apply read_only_IsReservedIPv6.
  - eexists. apply twice_same. apply IsReservedIPv4_initial. lia.
  - destruct ip16 as [ip|].
    + eexists. apply twice_same. apply IsReservedIPv6_initial; assumption.
    + exists 0. reflexivity.
Qed.

Lemma classifiers_pure_witness :
  read_only (IsReservedIPv4 26 0xC0000001) /\
  read_only (IsReservedIPv6 26 None) /\
  (exists r, twice (IsReservedIPv4 26 0xC0000001) initial_memory =
             Done (r, r) initial_memory) /\
  (exists r, twice (IsReservedIPv6 26 None) initial_memory =
             Done (r, r) initial_memory).
Proof.
  apply (classifiers_pure 26 0xC0000001 None); [lia | reflexivity | reflexivity].
Defined.

(** C10.  Both functions terminate on every input: with a budget of ten
    iterations the binary search returns for every 32-bit value, and with a
    budget of twenty-six the scan returns for the null pointer and for every
    16-byte buffer; the result is 0 or 1 and no fault occurs. *)
Theorem classifiers_terminate (fuel4 fuel6 : nat) (a : Z) (ip16 : option (list Z)) :
  (10 <= fuel4)%nat -> (26 <= fuel6)%nat ->
  is_uint32 a = true -> is_argument ip16 = true ->
  (exists r, IsReservedIPv4 fuel4 a initial_memory = Done r initial_memory /\
             (r = 0 \/ r = 1)) /\
  (exists r, IsReservedIPv6 fuel6 ip16 initial_memory = Done r initial_memory /\
             (r = 0 \/ r = 1)).
Proof.
  intros H4 H6 _ Harg. split.
  - apply IsReservedIPv4_terminates; [exact initial_memory_ipv4_ok|].
    simpl. lia.
  - destruct ip16 as [ip|]; [|exists 0; split; [reflexivity | auto]].
    rewrite IsReservedIPv6_initial by assumption.
    destruct (existsb _ _); eauto.
Qed.

Lemma classifiers_terminate_witness :
  (exists r, IsReservedIPv4 10 0xFFFFFFFF initial_memory = Done r initial_memory /\
             (r = 0 \/ r = 1)) /\
  (exists r, IsReservedIPv6 26 (Some (repeat 0xFF 16)) initial_memory =
             Done r initial_memory /\ (r = 0 \/ r = 1)).
Proof.
  apply (classifiers_terminate 10 26 0xFFFFFFFF (Some (repeat 0xFF 16)));
    [lia | lia | reflexivity | reflexivity].
Defined.

Lemma leading_bits_div n ip :
  n <= 128 -> Spec.leading_bits n ip = Spec.be_value ip / 2 ^ (128 - n).
Proof. intros H. unfold Spec.leading_bits. apply Z.shiftr_div_pow2. lia. Qed.

Lemma address_value_bound ip :
  is_address ip = true -> 0 <= Spec.be_value ip < 2 ^ 128.
Proof.
  intros H. pose proof (be_value_bound ip (is_address_bytes _ H)) as B.
  rewrite (is_address_length _ H) in B. exact B.
Qed.

(** The table scan, entry by entry, in terms of leading bits. *)
Lemma reserved_prefixes_by_bits ip :
  is_address ip = true ->
  existsb (Spec.prefix_match ip) ipv6_reserved_prefixes =
  let v := Spec.be_value ip in
  (v =? 0) || (v / 2 ^ 32 =? 0xFFFF) || (v / 2 ^ 64 =? 0x0100000000000000) ||
  (v / 2 ^ 96 =? 0x20010000) || (v / 2 ^ 100 =? 0x2001001) ||
  (v / 2 ^ 100 =? 0x2001002) || (v / 2 ^ 96 =? 0x20010db8) ||
  (v / 2 ^ 120 =? 0xFF).
Proof.
  intros Hip. unfold ipv6_reserved_prefixes. cbn [existsb].
  rewrite !prefix_match_eqb
    by (try assumption; apply ipv6_table_entries_ok; simpl; tauto).
  cbn [prefix_len prefix].
  rewrite !(leading_bits_div _ ip) by lia.
  cbn zeta.
  change (128 - 128) with 0. change (128 - 96) with 32.
  change (128 - 64) with 64. change (128 - 32) with 96.
  change (128 - 28) with 100. change (128 - 8) with 120.
  rewrite Z.pow_0_r, Z.div_1_r.
  rewrite !orb_assoc, orb_false_r.
  reflexivity.
Qed.

Lemma orchid_v1_scan_hit ip :
  is_address ip = true ->
  Spec.leading_bits 28 ip = Spec.leading_bits 28 Spec.orchid_v1 ->
  existsb (Spec.prefix_match ip) ipv6_reserved_prefixes = true.
Proof.
  intros Hip H. apply existsb_exists.
  exists (mkIPv6Prefix Spec.orchid_v1 28). split; [simpl; tauto|].
  apply prefix_match_leading_bits;
    [assumption | apply ipv6_table_entries_ok; simpl; tauto | exact H].
Qed.

Lemma orchid_v1_scan_neighbours ip :
  is_address ip = true ->
  Spec.leading_bits 24 ip = Spec.leading_bits 24 Spec.orchid_v1 ->
  Spec.leading_bits 28 ip <> Spec.leading_bits 28 Spec.orchid_v1 ->
  existsb (Spec.prefix_match ip) ipv6_reserved_prefixes =
  (Spec.leading_bits 28 ip =? Spec.leading_bits 28 Spec.orchid_v2) ||
  (Spec.leading_bits 32 ip =? Spec.leading_bits 32 Spec.teredo).
Proof.
  intros Hip H24 H28.
  rewrite reserved_prefixes_by_bits by assumption. cbn zeta.
  rewrite !(leading_bits_div _ ip) in * by lia.
  change (Spec.leading_bits 24 Spec.orchid_v1) with 0x200100 in H24.
  change (Spec.leading_bits 28 Spec.orchid_v1) with 0x2001001 in H28.
  change (Spec.leading_bits 28 Spec.orchid_v2) with 0x2001002.
  change (Spec.leading_bits 32 Spec.teredo) with 0x20010000.
  change (128 - 24) with 104 in H24. change (128 - 28) with 100 in *.
  change (128 - 32) with 96.
  pose proof (address_value_bound ip Hip) as B.
  set (v := Spec.be_value ip) in *.
  assert ((v =? 0) = false) as -> by (apply Z.eqb_neq; Z.div_mod_to_equations; lia).
  assert ((v / 2 ^ 32 =? 0xFFFF) = false) as ->
      by (apply Z.eqb_neq; Z.div_mod_to_equations; lia).
  assert ((v / 2 ^ 64 =? 0x0100000000000000) = false) as ->
      by (apply Z.eqb_neq; Z.div_mod_to_equations; lia).
  assert ((v / 2 ^ 100 =? 0x2001001) = false) as -> by (apply Z.eqb_neq; exact H28).
  assert ((v / 2 ^ 96 =? 0x20010db8) = false) as ->
      by (apply Z.eqb_neq; Z.div_mod_to_equations; lia).
  assert ((v / 2 ^ 120 =? 0xFF) = false) as ->
      by (apply Z.eqb_neq; Z.div_mod_to_equations; lia).
  cbn [orb]. rewrite !orb_false_r. apply orb_comm.
Qed.

(** C6, first half as stated and second half as the table makes it.  Every
    16-byte address whose 28 leading bits are those of [2001:10::] is
    reserved.  An address that agrees with [2001:10::] on the 24 leading
    bits and differs in the high nibble of byte 3 does not match the
    [2001:10::/28] entry; [IsReservedIPv6] returns 0 for it unless its 28
    leading bits are those of [2001:20::] or its 32 leading bits are those
    of [2001::], the two neighbouring table entries, in which case it
    returns 1. *)
Theorem orchid_v1_partial_byte (fuel : nat) (ip : list Z) :
  (26 <= fuel)%nat -> is_address ip = true ->
  (Spec.leading_bits 28 ip = Spec.leading_bits 28 Spec.orchid_v1 ->
   IsReservedIPv6 fuel (Some ip) initial_memory = Done 1 initial_memory) /\
  (Spec.leading_bits 24 ip = Spec.leading_bits 24 Spec.orchid_v1 ->
   Spec.leading_bits 28 ip <> Spec.leading_bits 28 Spec.orchid_v1 ->
   ipv6_matches_prefix fuel ip 4 initial_memory = Done 0 initial_memory /\
   IsReservedIPv6 fuel (Some ip) initial_memory =
   Done (if (Spec.leading_bits 28 ip =? Spec.leading_bits 28 Spec.orchid_v2) ||
            (Spec.leading_bits 32 ip =? Spec.leading_bits 32 Spec.teredo)
         then 1 else 0) initial_memory).
Proof.
  intros Hf Hip. split.
  - intros H. rewrite IsReservedIPv6_initial by assumption.
    now rewrite orchid_v1_scan_hit.
  - intros H24 H28. split.
    + assert (prefix_ok (mkIPv6Prefix Spec.orchid_v1 28)) as Hwf
          by (apply ipv6_table_entries_ok; simpl; tauto).
      rewrite (ipv6_matches_prefix_spec initial_memory ip Hip 4
                 (mkIPv6Prefix Spec.orchid_v1 28) eq_refl Hwf) by lia.
      destruct (Spec.prefix_match ip (mkIPv6Prefix Spec.orchid_v1 28)) eqn:E;
        [|reflexivity].
      apply (prefix_match_leading_bits ip _ Hip Hwf) in E. contradiction.
    + rewrite IsReservedIPv6_initial by assumption.
      now rewrite orchid_v1_scan_neighbours.
Qed.

Lemma orchid_v1_partial_byte_witness :
  IsReservedIPv6 26
    (Some [0x20; 0x01; 0x00; 0x1f; 0xff; 0; 0; 0; 0; 0; 0; 0; 0; 0; 0; 0x01])
    initial_memory = Done 1 initial_memory /\
  IsReservedIPv6 26
    (Some [0x20; 0x01; 0x00; 0x30; 0; 0; 0; 0; 0; 0; 0; 0; 0; 0; 0; 0])
    initial_memory = Done 0 initial_memory.
Proof.
  split.
  - apply (orchid_v1_partial_byte 26
             [0x20; 0x01; 0x00; 0x1f; 0xff; 0; 0; 0; 0; 0; 0; 0; 0; 0; 0; 0x01]);
      [lia | reflexivity | reflexivity].
  - apply (orchid_v1_partial_byte 26
             [0x20; 0x01; 0x00; 0x30; 0; 0; 0; 0; 0; 0; 0; 0; 0; 0; 0; 0]);
      [lia | reflexivity | reflexivity | discriminate].
Defined.

(** The second half of C6 as stated fails: [2001:20::] differs from
    [2001:10::] in the high nibble of byte 3 and nowhere else, and it is
    reserved, through the [2001:20::/28] entry. *)
Lemma orchid_v2_counterexample :
  let ip := [0x20; 0x01; 0x00; 0x20; 0; 0; 0; 0; 0; 0; 0; 0; 0; 0; 0; 0] in
  is_address ip = true /\
  firstn 3 ip = firstn 3 Spec.orchid_v1 /\
  skipn 4 ip = skipn 4 Spec.orchid_v1 /\
  nth 3 ip 0 mod 16 = nth 3 Spec.orchid_v1 0 mod 16 /\
  nth 3 ip 0 / 16 <> nth 3 Spec.orchid_v1 0 / 16 /\
  Spec.leading_bits 24 ip = Spec.leading_bits 24 Spec.orchid_v1 /\
  Spec.leading_bits 28 ip <> Spec.leading_bits 28 Spec.orchid_v1 /\
  IsReservedIPv6 26 (Some ip) initial_memory = Done 1 initial_memory /\
  IsReservedIPv6 26 (Some ip) initial_memory <> Done 0 initial_memory.
Proof.
  cbv zeta.
  split; [reflexivity|]. split; [reflexivity|]. split; [reflexivity|].
  split; [reflexivity|]. split; [discriminate|]. split; [reflexivity|].
  split; [discriminate|]. split; [reflexivity | discriminate].
Qed.

(* ------------------------------------------------------------------ *)
(** ** Further properties of the code *)
(* ------------------------------------------------------------------ *)

(** The budget never changes an answer: a loop that returned keeps its
    result under any larger budget. *)
Lemma IsReservedIPv4_while_more_fuel fuel :
  forall fuel' a left right m r m',
    (fuel <= fuel')%nat ->
    IsReservedIPv4_while fuel a left right m = Done r m' ->
    IsReservedIPv4_while fuel' a left right m = Done r m'.
Proof.
  induction fuel as [|fuel IH]; intros fuel' a left right m r m' Hle H;
    [discriminate|].
  destruct fuel' as [|fuel']; [lia|].
  cbn [IsReservedIPv4_while] in *.
  destruct (left <=? right); [|exact H].
  unfold bind in *.
  destruct (load_ipv4_range _ m) as [range m1| |]; try discriminate.
  destruct ((a >=? start range) && (a <=? end_ range)); [exact H|].
  destruct (a <? start range); apply IH; auto; lia.
Qed.

Lemma midpoint_halves left right :
  left <= right ->
  2 * ((left + right) / 2 - left) <= right - left /\
  2 * (right - (left + right) / 2) <= right - left + 1.
Proof.
  intros H. pose proof (Z.div_mod (left + right) 2 ltac:(lia)) as E.
  pose proof (Z.mod_pos_bound (left + right) 2 ltac:(lia)). lia.
Qed.

Section Halving.

Variable m : Memory.
Variable ip_host : Z.
Hypothesis Hok : ipv4_storage_ok m.

(** Each probe at least halves the interval: an interval narrower than
    [2 ^ k] is settled within [k] probes, whatever the table holds. *)
Lemma IsReservedIPv4_while_halves k :
  forall left right,
    0 <= left -> right < Z.of_nat (length (mem_ipv4_reserved_ranges m)) ->
    left <= right + 1 -> right - left + 1 < 2 ^ Z.of_nat k ->
    exists r, IsReservedIPv4_while (S k) ip_host left right m = Done r m /\
              (r = 0 \/ r = 1).
Proof.
  induction k as [|k IH]; intros left right Hl Hr Hlr Hw;
    cbn [IsReservedIPv4_while].
  - change (2 ^ Z.of_nat 0) with 1 in Hw.
    destruct (Z.leb_spec left right); [lia | exists 0; auto].
  - rewrite Nat2Z.inj_succ, Z.pow_succ_r in Hw by lia.
    destruct (Z.leb_spec left right) as [Hle|Hgt]; [|exists 0; auto].
    rewrite (midpoint m Hok) by assumption.
    pose proof (midpoint_between left right Hle) as Hmid.
    pose proof (midpoint_halves left right Hle) as [Hlo Hhi].
    set (mid := (left + right) / 2) in *.
    destruct (index_in_bounds (mem_ipv4_reserved_ranges m) mid) as [range Hrange];
      [lia|].
    rewrite (run_bind _ _ _ _ _ (run_load_ipv4_range _ _ _ Hrange)).
    destruct Hok as [_ Hlen].
    destruct ((ip_host >=? start range) && (ip_host <=? end_ range));
      [exists 1; auto|].
    destruct (ip_host <? start range).
    + rewrite int_sub_small by lia. apply IH; lia.
    + rewrite int_add_small by lia. apply IH; lia.
Qed.

Lemma IsReservedIPv4_log_budget (k fuel : nat) :
  Z.of_nat (length (mem_ipv4_reserved_ranges m)) < 2 ^ Z.of_nat k ->
  (k < fuel)%nat ->
  exists r, IsReservedIPv4 fuel ip_host m = Done r m /\ (r = 0 \/ r = 1).
Proof.
  intros Hk Hf. pose proof Hok as [Hc Hlen].
  unfold IsReservedIPv4, bind, load_ipv4_ranges_count. rewrite Hc.
  rewrite int_sub_small by lia.
  destruct (IsReservedIPv4_while_halves k 0
              (Z.of_nat (length (mem_ipv4_reserved_ranges m)) - 1))
    as (r & Hr & Hb); try lia.
  exists r. split; [|exact Hb].
  apply (IsReservedIPv4_while_more_fuel (S k)); [lia | exact Hr].
Qed.

End Halving.

Lemma IsReservedIPv4_more_fuel fuel fuel' a m r m' :
  (fuel <= fuel')%nat ->
  IsReservedIPv4 fuel a m = Done r m' -> IsReservedIPv4 fuel' a m = Done r m'.
Proof.
  unfold IsReservedIPv4, bind, load_ipv4_ranges_count.
  apply IsReservedIPv4_while_more_fuel.
Qed.

Lemma linear_scan_existsb a t :
  Spec.linear_scan a t =
  if existsb (fun r => (start r <=? a) && (a <=? end_ r)) t then 1 else 0.
Proof.
  induction t as [|r t IH]; cbn [Spec.linear_scan existsb]; [reflexivity|].
  destruct ((start r <=? a) && (a <=? end_ r)); [reflexivity | exact IH].
Qed.


Lemma IsReservedIPv4_log_correct m a (k fuel : nat) :
  ipv4_storage_ok m ->
  Spec.table_invariant (mem_ipv4_reserved_ranges m) ->
  Z.of_nat (length (mem_ipv4_reserved_ranges m)) < 2 ^ Z.of_nat k ->
  (k < fuel)%nat ->
  IsReservedIPv4 fuel a m =
  Done (Spec.linear_scan a (mem_ipv4_reserved_ranges m)) m.
Proof.
  intros Hok Hinv Hk Hf.
  destruct (IsReservedIPv4_log_budget m a Hok k fuel Hk Hf) as (r & Hr & _).
  set (big := Nat.max fuel (S (length (mem_ipv4_reserved_ranges m)))).
  pose proof (IsReservedIPv4_more_fuel fuel big a m r m ltac:(lia) Hr) as Hbig.
  rewrite (IsReservedIPv4_refines_linear_scan m a Hok Hinv big) in Hbig by lia.
  rewrite Hr. exact (eq_sym Hbig).
Qed.

Lemma IsReservedIPv4_initial_tight fuel a :
  (5 <= fuel)%nat ->
  IsReservedIPv4 fuel a initial_memory =
  Done (Spec.linear_scan a ipv4_reserved_ranges) initial_memory.
Proof.
  intros Hf.
  apply (IsReservedIPv4_log_correct initial_memory a 4 fuel
           initial_memory_ipv4_ok ipv4_table_invariant); [reflexivity | lia].
Qed.


Ltac range_is_block :=
  unfold in_cidr, dotted; cbn [fst snd start end_];
  rewrite !Z.shiftr_div_pow2 by lia;
  match goal with
  | |- (?s <=? ?a) && (?a <=? ?e) = (?x =? ?y) =>
      destruct (Z.leb_spec s a); destruct (Z.leb_spec a e);
      destruct (Z.eqb_spec x y); cbn [andb]; try reflexivity;
      exfalso; Z.div_mod_to_equations; lia
  end.

Lemma reserved_ranges_are_blocks a :
  existsb (fun r => (start r <=? a) && (a <=? end_ r)) ipv4_reserved_ranges =
  existsb (in_cidr a) documented_blocks.
Proof.
  unfold ipv4_reserved_ranges, documented_blocks. cbn [existsb].
  rewrite !orb_false_r.
  repeat (apply (f_equal2 orb); [range_is_block|]). range_is_block.
Qed.




(** X3.  The table agrees with its own comments: [IsReservedIPv4] returns
    1 exactly on the addresses of the nine blocks written beside the ranges
    ([0.0.0.0/8], [100.64.0.0/10], ..., [224.0.0.0/3]). *)
Theorem IsReservedIPv4_documented_blocks (fuel : nat) (a : Z) :
  (5 <= fuel)%nat ->
  IsReservedIPv4 fuel a initial_memory =
  Done (if existsb (in_cidr a) documented_blocks then 1 else 0) initial_memory.
Proof.
  intros Hf. rewrite IsReservedIPv4_initial_tight by assumption.
  now rewrite linear_scan_existsb, reserved_ranges_are_blocks.
Qed.

Lemma IsReservedIPv4_documented_blocks_witness :
  IsReservedIPv4 5 (dotted 198 19 255 255) initial_memory =
  Done (if existsb (in_cidr (dotted 198 19 255 255)) documented_blocks
        then 1 else 0) initial_memory.
Proof. apply (IsReservedIPv4_documented_blocks 5). lia. Defined.

(** X4.  The reduced table leaves private-use, loopback and link-local
    space alone: every address of [10.0.0.0/8], [127.0.0.0/8],
    [169.254.0.0/16], [172.16.0.0/12] or [192.168.0.0/16] makes
    [IsReservedIPv4] return 0. *)
Theorem IsReservedIPv4_leaves_out (fuel : nat) (a : Z) (block : Z * Z) :
  (5 <= fuel)%nat ->
  In block left_out_blocks -> in_cidr a block = true ->
  IsReservedIPv4 fuel a initial_memory = Done 0 initial_memory.
Proof.
  intros Hf Hin Ha. rewrite IsReservedIPv4_initial_tight by assumption.
  rewrite linear_scan_miss; [reflexivity|].
  unfold in_cidr in Ha. apply Z.eqb_eq in Ha.
  intros r Hr Hrange.
  unfold left_out_blocks, dotted in Hin. cbn [In] in Hin.
  unfold ipv4_reserved_ranges in Hr. cbn [In] in Hr.
  repeat (destruct Hin as [<-|Hin]); try contradiction;
    cbn [fst snd] in Ha; rewrite !Z.shiftr_div_pow2 in Ha by lia;
    repeat (destruct Hr as [<-|Hr]); try contradiction;
    cbn [start end_] in Hrange; Z.div_mod_to_equations; lia.
Qed.

Lemma IsReservedIPv4_leaves_out_witness :
  IsReservedIPv4 5 (dotted 192 168 1 1) initial_memory = Done 0 initial_memory.
Proof.
  apply (IsReservedIPv4_leaves_out 5 (dotted 192 168 1 1) (dotted 192 168 0 0, 16));
    [lia | simpl; tauto | reflexivity].
Defined.

Lemma run_bind_fault {A B} (c : M A) (k : A -> M B) m :
  c m = Fault -> bind c k m = Fault.
Proof. intros H. unfold bind. now rewrite H. Qed.

Lemma load_byte_past_end ip i m :
  Z.of_nat (length ip) <= i -> load_byte ip i m = Fault.
Proof.
  intros H. unfold load_byte, index.
  destruct (Z.ltb_spec i 0); [reflexivity|].
  rewrite (proj2 (nth_error_None ip (Z.to_nat i))) by lia. reflexivity.
Qed.

Section Overlong.

Variable m : Memory.
Variable ip : list Z.
Variable p : Z.
Variable e : IPv6Prefix.
Hypothesis Hip : is_address ip = true.
Hypothesis Hp : index (mem_ipv6_reserved_prefixes m) p = Some e.
Hypothesis Hpre : is_address (prefix e) = true.

(** The byte loop with a bound of sixteen or more: it stops at the first
    differing byte; when all sixteen agree it leaves through its condition
    if the bound is sixteen and reads [ip[16]] otherwise. *)
Lemma ipv6_matches_prefix_for_long n fuel :
  16 <= n ->
  forall i, 0 <= i <= 16 -> 16 - i < Z.of_nat fuel ->
  ipv6_matches_prefix_for fuel ip p n i m =
  if Spec.bytes_eqb (skipn (Z.to_nat i) ip) (skipn (Z.to_nat i) (prefix e))
  then (if 16 <? n then Fault else Done None m)
  else Done (Some 0) m.
Proof.
  intros Hn.
  pose proof (is_address_length _ Hip) as Lip.
  pose proof (is_address_length _ Hpre) as Lpre.
  induction fuel as [|fuel IH]; intros i Hi Hf; [lia|].
  cbn [ipv6_matches_prefix_for].
  destruct (Z.eq_dec i 16) as [->|Hne].
  - rewrite !skipn_all2 by lia. cbn [Spec.bytes_eqb].
    destruct (Z.ltb_spec 16 n); [|reflexivity].
    apply run_bind_fault, load_byte_past_end. lia.
  - destruct (Z.ltb_spec i n); [|lia].
    destruct (index_in_bounds ip i) as [a Ha]; [lia|].
    destruct (index_in_bounds (prefix e) i) as [b Hb]; [lia|].
    rewrite (run_bind _ _ _ _ _ (run_load_byte _ _ _ m Ha)).
    rewrite (run_bind _ _ _ _ _ (run_load_prefix_byte _ _ _ _ _ Hp Hb)).
    rewrite (index_skipn _ _ _ Ha), (index_skipn _ _ _ Hb).
    cbn [Spec.bytes_eqb].
    destruct (a =? b); cbn [negb andb]; [|reflexivity].
    rewrite int_add_small by lia. apply IH; lia.
Qed.

Lemma ipv6_matches_prefix_overlong_run fuel :
  128 < prefix_len e < 256 -> (16 < fuel)%nat ->
  ipv6_matches_prefix fuel ip p m =
  if Spec.bytes_eqb ip (prefix e) then Fault else Done 0 m.
Proof.
  intros Hlen Hf.
  unfold ipv6_matches_prefix.
  rewrite (run_bind _ _ _ _ _ (run_load_prefix_len _ _ _ Hp)).
  rewrite int_div_nonneg, int_rem_nonneg by lia.
  pose proof (Z.div_mod (prefix_len e) 8 ltac:(lia)) as Hdm.
  pose proof (Z.mod_pos_bound (prefix_len e) 8 ltac:(lia)) as Hr.
  assert (16 <= prefix_len e / 8) as Hn by lia.
  unfold bind at 1.
  rewrite ipv6_matches_prefix_for_long by lia.
  cbn [Z.to_nat skipn].
  destruct (Spec.bytes_eqb ip (prefix e)); [|reflexivity].
  destruct (Z.ltb_spec 16 (prefix_len e / 8)) as [|Hle]; [reflexivity|].
  rewrite Z.gtb_ltb.
  destruct (Z.ltb_spec 0 (prefix_len e mod 8)); [|lia].
  apply run_bind_fault, load_byte_past_end.
  rewrite (is_address_length _ Hip). lia.
Qed.

End Overlong.

(** X7.  [ipv6_matches_prefix] does not check [prefix_len]: with an entry
    whose length is above 128 it reads [ip[16]], one past the buffer, when
    the sixteen bytes of the address equal those of the entry, and returns
    0 without such a read when they differ. *)
Theorem ipv6_matches_prefix_overlong
        (m : Memory) (ip : list Z) (p : Z) (e : IPv6Prefix) (fuel : nat) :
  is_address ip = true ->
  index (mem_ipv6_reserved_prefixes m) p = Some e ->
  is_address (prefix e) = true ->
  128 < prefix_len e < 256 -> (16 < fuel)%nat ->
  (ip = prefix e -> ipv6_matches_prefix fuel ip p m = Fault) /\
  (ip <> prefix e -> ipv6_matches_prefix fuel ip p m = Done 0 m).
Proof.
  intros Hip Hp Hpre Hlen Hf.
  rewrite (ipv6_matches_prefix_overlong_run m ip p e Hip Hp Hpre fuel Hlen Hf).
  destruct (Spec.bytes_eqb ip (prefix e)) eqn:E.
  - split; [reflexivity|]. intros Hne. apply bytes_eqb_eq in E. contradiction.
  - split; [|reflexivity]. intros Heq. apply bytes_eqb_eq in Heq. congruence.
Qed.

Lemma ipv6_matches_prefix_overlong_witness :
  ipv6_matches_prefix 17 (repeat 0xAB 16) 0
    (mkMemory [] 0 [mkIPv6Prefix (repeat 0xAB 16) 130] 1) = Fault.
Proof.
  apply (ipv6_matches_prefix_overlong
           (mkMemory [] 0 [mkIPv6Prefix (repeat 0xAB 16) 130] 1)
           (repeat 0xAB 16) 0 (mkIPv6Prefix (repeat 0xAB 16) 130) 17);
    [reflexivity | reflexivity | reflexivity | simpl; lia | lia | reflexivity].
Defined.

(** X5.  For any well-formed table entry, whatever its prefix length
    between 0 and 128, [ipv6_matches_prefix] returns 1 when the address and
    the entry agree on the [prefix_len] leading bits and 0 otherwise; bits
    beyond the prefix length, of the address or of the entry, play no part. *)
Theorem ipv6_matches_prefix_leading_bits
        (m : Memory) (ip : list Z) (p : Z) (e : IPv6Prefix) (fuel : nat) :
  is_address ip = true ->
  index (mem_ipv6_reserved_prefixes m) p = Some e ->
  prefix_ok e -> (16 < fuel)%nat ->
  ipv6_matches_prefix fuel ip p m =
  Done (if Spec.leading_bits (prefix_len e) ip =?
           Spec.leading_bits (prefix_len e) (prefix e)
        then 1 else 0) m.
Proof.
  intros Hip Hp He Hf.
  rewrite (ipv6_matches_prefix_spec m ip Hip p e Hp He fuel Hf).
  now rewrite (prefix_match_eqb ip e Hip He).
Qed.

Lemma ipv6_matches_prefix_leading_bits_witness :
  ipv6_matches_prefix 17
    [0x20; 0x01; 0x00; 0x2f; 1; 2; 3; 4; 5; 6; 7; 8; 9; 10; 11; 12] 5
    initial_memory = Done 1 initial_memory.
Proof.
  apply (ipv6_matches_prefix_leading_bits initial_memory
           [0x20; 0x01; 0x00; 0x2f; 1; 2; 3; 4; 5; 6; 7; 8; 9; 10; 11; 12] 5
           (mkIPv6Prefix Spec.orchid_v2 28) 17);
    [reflexivity | reflexivity | split; [reflexivity | simpl; lia] | lia].
Defined.

(** X6.  The two extreme prefix lengths: an entry of length 0 matches
    every address, and an entry of length 128 matches the address made of
    the same sixteen bytes and no other. *)
Theorem ipv6_matches_prefix_extremes
        (m : Memory) (ip : list Z) (p : Z) (e : IPv6Prefix) (fuel : nat) :
  is_address ip = true ->
  index (mem_ipv6_reserved_prefixes m) p = Some e ->
  prefix_ok e -> (16 < fuel)%nat ->
  (prefix_len e = 0 -> ipv6_matches_prefix fuel ip p m = Done 1 m) /\
  (prefix_len e = 128 ->
   (ip = prefix e -> ipv6_matches_prefix fuel ip p m = Done 1 m) /\
   (ip <> prefix e -> ipv6_matches_prefix fuel ip p m = Done 0 m)).
Proof.
  intros Hip Hp He Hf.
  rewrite (ipv6_matches_prefix_spec m ip Hip p e Hp He fuel Hf).
  unfold Spec.prefix_match. split; intros Hlen; rewrite Hlen.
  - reflexivity.
  - change (128 / 8) with 16. change (128 mod 8) with 0.
    rewrite !firstn_all2
      by (rewrite is_address_length; [cbv; lia | assumption || apply He]).
    cbn [Z.eqb orb]. rewrite andb_true_r.
    destruct (Spec.bytes_eqb ip (prefix e)) eqn:E.
    + split; [reflexivity|]. intros Hne. apply bytes_eqb_eq in E. contradiction.
    + split; [|reflexivity]. intros Heq. apply bytes_eqb_eq in Heq. congruence.
Qed.

Lemma ipv6_matches_prefix_extremes_witness :
  ipv6_matches_prefix 17 (repeat 0x5A 16) 0
    (mkMemory [] 0 [mkIPv6Prefix (repeat 0 16) 0] 1) =
  Done 1 (mkMemory [] 0 [mkIPv6Prefix (repeat 0 16) 0] 1) /\
  ipv6_matches_prefix 17 (repeat 0x5A 16) 0 initial_memory =
  Done 0 initial_memory.
Proof.
  split.
  - destruct (ipv6_matches_prefix_extremes
                (mkMemory [] 0 [mkIPv6Prefix (repeat 0 16) 0] 1)
                (repeat 0x5A 16) 0 (mkIPv6Prefix (repeat 0 16) 0) 17)
      as [Hzero _];
      [reflexivity | reflexivity | split; [reflexivity | simpl; lia] | lia |].
    exact (Hzero eq_refl).
  - destruct (ipv6_matches_prefix_extremes initial_memory
                (repeat 0x5A 16) 0 (mkIPv6Prefix (repeat 0 16) 128) 17)
      as [_ Hfull];
      [reflexivity | reflexivity | split; [reflexivity | simpl; lia] | lia |].
    apply (Hfull eq_refl). discriminate.
Defined.

Lemma existsb_Permutation {A} (f : A -> bool) l l' :
  Permutation l l' -> existsb f l = existsb f l'.
Proof.
  induction 1 as [| x l l' _ IH | x y l | l l' l'' _ IH1 _ IH2];
    cbn [existsb].
  - reflexivity.
  - now rewrite IH.
  - rewrite !orb_assoc, (orb_comm (f y)). reflexivity.
  - congruence.
Qed.

(** X8.  The linear scan is correct on every well-formed prefix table: the
    result is 0 or 1, and 1 exactly when the address agrees with some entry
    on that entry's leading [prefix_len] bits. *)
Theorem IsReservedIPv6_any_table (m : Memory) (ip : list Z) (fuel : nat) :
  is_address ip = true -> ipv6_storage_ok m ->
  Z.of_nat (length (mem_ipv6_reserved_prefixes m)) + 17 < Z.of_nat fuel ->
  exists r,
    IsReservedIPv6 fuel (Some ip) m = Done r m /\
    (r = 0 \/ r = 1) /\
    (r = 1 <->
     exists e, In e (mem_ipv6_reserved_prefixes m) /\
               Spec.leading_bits (prefix_len e) ip =
               Spec.leading_bits (prefix_len e) (prefix e)).
Proof.
  intros Hip Hok Hf.
  rewrite (IsReservedIPv6_spec m ip Hip Hok fuel Hf).
  destruct Hok as (_ & _ & Hall). rewrite Forall_forall in Hall.
  destruct (existsb _ _) eqn:E.
  - apply existsb_exists in E as (e & Hin & He).
    exists 1. split; [reflexivity|]. split; [auto|].
    split; [intros _|reflexivity]. exists e. split; [exact Hin|].
    apply prefix_match_leading_bits; auto.
  - exists 0. split; [reflexivity|]. split; [auto|].
    split; [discriminate|]. intros (e & Hin & He).
    assert (existsb (Spec.prefix_match ip) (mem_ipv6_reserved_prefixes m) = true).
    { apply existsb_exists. exists e. split; [exact Hin|].
      apply prefix_match_leading_bits; auto. }
    congruence.
Qed.

(** X9.  The order of the IPv6 table does not matter: two well-formed
    tables that are permutations of one another give the same answer for
    every address. *)
Theorem IsReservedIPv6_order_irrelevant
        (m m' : Memory) (ip : list Z) (fuel : nat) :
  is_address ip = true -> ipv6_storage_ok m -> ipv6_storage_ok m' ->
  Permutation (mem_ipv6_reserved_prefixes m) (mem_ipv6_reserved_prefixes m') ->
  Z.of_nat (length (mem_ipv6_reserved_prefixes m)) + 17 < Z.of_nat fuel ->
  exists r,
    IsReservedIPv6 fuel (Some ip) m = Done r m /\
    IsReservedIPv6 fuel (Some ip) m' = Done r m'.
Proof.
  intros Hip Hok Hok' Hperm Hf.
  rewrite (IsReservedIPv6_spec m ip Hip Hok fuel Hf).
  rewrite (IsReservedIPv6_spec m' ip Hip Hok' fuel)
    by (rewrite <- (Permutation_length Hperm); exact Hf).
  rewrite (existsb_Permutation _ _ _ Hperm). eauto.
Qed.

Lemma IsReservedIPv6_any_table_witness :
  exists r,
    IsReservedIPv6 26 (Some (repeat 0xFF 16)) initial_memory =
    Done r initial_memory /\
    (r = 0 \/ r = 1) /\
    (r = 1 <->
     exists e, In e (mem_ipv6_reserved_prefixes initial_memory) /\
               Spec.leading_bits (prefix_len e) (repeat 0xFF 16) =
               Spec.leading_bits (prefix_len e) (prefix e)).
Proof.
  apply (IsReservedIPv6_any_table initial_memory (repeat 0xFF 16) 26);
    [reflexivity | exact initial_memory_ipv6_ok | simpl; lia].
Defined.

Lemma IsReservedIPv6_order_irrelevant_witness :
  exists r,
    IsReservedIPv6 26 (Some (repeat 0xFF 16)) initial_memory =
    Done r initial_memory /\
    IsReservedIPv6 26 (Some (repeat 0xFF 16))
      (mkMemory [] 0 (rev ipv6_reserved_prefixes) 8) =
    Done r (mkMemory [] 0 (rev ipv6_reserved_prefixes) 8).
Proof.
  apply (IsReservedIPv6_order_irrelevant initial_memory
           (mkMemory [] 0 (rev ipv6_reserved_prefixes) 8) (repeat 0xFF 16) 26).
  - reflexivity.
  - exact initial_memory_ipv6_ok.
  - split; [reflexivity|]. split; [cbv; reflexivity|].
    cbn. repeat constructor; cbn; lia.
  - apply Permutation_rev.
  - simpl. lia.
Defined.

Lemma is_uint8_true z : 0 <= z < 256 -> is_uint8 z = true.
Proof.
  intros H. unfold is_uint8. apply andb_true_iff.
  split; [apply Z.leb_le | apply Z.ltb_lt]; lia.
Qed.

Lemma ipv4_mapped_is_address a :
  is_uint32 a = true -> is_address (ipv4_mapped a) = true.
Proof.
  unfold is_uint32. rewrite andb_true_iff, Z.leb_le, Z.ltb_lt. intros H.
  unfold is_address, ipv4_mapped. cbn [length Nat.eqb forallb andb].
  rewrite !is_uint8_true by (Z.div_mod_to_equations; lia). reflexivity.
Qed.

Lemma ipv4_mapped_value a :
  is_uint32 a = true -> Spec.be_value (ipv4_mapped a) = 0xFFFF * 2 ^ 32 + a.
Proof.
  unfold is_uint32. rewrite andb_true_iff, Z.leb_le, Z.ltb_lt. intros H.
  unfold Spec.be_value, ipv4_mapped. cbn [fold_left].
  Z.div_mod_to_equations. lia.
Qed.

(** X10.  The two classifiers composed: the IPv4-mapped form [::ffff:a] of
    every 32-bit address [a] is reserved for [IsReservedIPv6], whether or
    not [IsReservedIPv4] reserves [a] itself. *)
Theorem ipv4_mapped_always_reserved (fuel : nat) (a : Z) :
  (26 <= fuel)%nat -> is_uint32 a = true ->
  Spec.be_value (ipv4_mapped a) = 0xFFFF * 2 ^ 32 + a /\
  IsReservedIPv6 fuel (Some (ipv4_mapped a)) initial_memory =
  Done 1 initial_memory.
Proof.
  intros Hf Ha. split; [apply ipv4_mapped_value, Ha|].
  rewrite IsReservedIPv6_initial by (auto using ipv4_mapped_is_address).
  replace (existsb _ _) with true; [reflexivity|].
  symmetry. apply existsb_exists.
  exists (mkIPv6Prefix [0;0;0;0;0;0;0;0;0;0;0xFF;0xFF;0;0;0;0] 96).
  split; [simpl; tauto | reflexivity].
Qed.

Lemma ipv4_mapped_always_reserved_witness :
  IsReservedIPv6 26 (Some (ipv4_mapped (dotted 8 8 8 8))) initial_memory =
  Done 1 initial_memory /\
  IsReservedIPv4 5 (dotted 8 8 8 8) initial_memory = Done 0 initial_memory.
Proof.
  split; [|reflexivity].
  apply (ipv4_mapped_always_reserved 26 (dotted 8 8 8 8)); [lia | reflexivity].
Defined.

(** X11.  The reduced IPv6 table leaves loopback, unique-local and
    link-local space alone: [::1] and every address of [fc00::/7] or
    [fe80::/10] makes [IsReservedIPv6] return 0. *)
Theorem IsReservedIPv6_leaves_out (fuel : nat) (ip : list Z) :
  (26 <= fuel)%nat -> is_address ip = true ->
  ip = loopback \/
  Spec.leading_bits 7 ip = Spec.leading_bits 7 unique_local \/
  Spec.leading_bits 10 ip = Spec.leading_bits 10 link_local ->
  IsReservedIPv6 fuel (Some ip) initial_memory = Done 0 initial_memory.
Proof.
  intros Hf Hip H. rewrite IsReservedIPv6_initial by assumption.
  destruct H as [->|H]; [reflexivity|].
  rewrite reserved_prefixes_by_bits by assumption. cbn zeta.
  rewrite !(leading_bits_div _ ip) in H by lia.
  change (Spec.leading_bits 7 unique_local) with 0x7E in H.
  change (Spec.leading_bits 10 link_local) with 0x3FA in H.
  change (128 - 7) with 121 in H. change (128 - 10) with 118 in H.
  pose proof (address_value_bound ip Hip) as B.
  set (v := Spec.be_value ip) in *.
  assert ((v =? 0) = false) as ->
      by (apply Z.eqb_neq; destruct H; Z.div_mod_to_equations; lia).
  assert ((v / 2 ^ 32 =? 0xFFFF) = false) as ->
      by (apply Z.eqb_neq; destruct H; Z.div_mod_to_equations; lia).
  assert ((v / 2 ^ 64 =? 0x0100000000000000) = false) as ->
      by (apply Z.eqb_neq; destruct H; Z.div_mod_to_equations; lia).
  assert ((v / 2 ^ 96 =? 0x20010000) = false) as ->
      by (apply Z.eqb_neq; destruct H; Z.div_mod_to_equations; lia).
  assert ((v / 2 ^ 100 =? 0x2001001) = false) as ->
      by (apply Z.eqb_neq; destruct H; Z.div_mod_to_equations; lia).
  assert ((v / 2 ^ 100 =? 0x2001002) = false) as ->
      by (apply Z.eqb_neq; destruct H; Z.div_mod_to_equations; lia).
  assert ((v / 2 ^ 96 =? 0x20010db8) = false) as ->
      by (apply Z.eqb_neq; destruct H; Z.div_mod_to_equations; lia).
  assert ((v / 2 ^ 120 =? 0xFF) = false) as ->
      by (apply Z.eqb_neq; destruct H; Z.div_mod_to_equations; lia).
  reflexivity.
Qed.

Lemma IsReservedIPv6_leaves_out_witness :
  IsReservedIPv6 26
    (Some [0xfe; 0x80; 0; 0; 0; 0; 0; 0; 2; 0; 0x5e; 0xff; 0xfe; 0; 0x53; 1])
    initial_memory = Done 0 initial_memory.
Proof.
  apply (IsReservedIPv6_leaves_out 26
           [0xfe; 0x80; 0; 0; 0; 0; 0; 0; 2; 0; 0x5e; 0xff; 0xfe; 0; 0x53; 1]);
    [lia | reflexivity | right; right; reflexivity].
Defined.

(** X12.  [IsReservedIPv4] trusts the order of its table: on a two-entry
    table stored in descending order, an address inside the lower range is
    reported as not reserved although a linear scan finds it. *)
Theorem binary_search_trusts_order (r_lo r_hi : IPv4Range) (a : Z) (fuel : nat) :
  start r_lo <= a <= end_ r_lo -> a < start r_hi -> (2 <= fuel)%nat ->
  IsReservedIPv4 fuel a (mkMemory [r_hi; r_lo] 2 [] 0) =
    Done 0 (mkMemory [r_hi; r_lo] 2 [] 0) /\
  Spec.linear_scan a [r_hi; r_lo] = 1.
Proof.
  intros Hlo Hhi Hf. split.
  - destruct fuel as [|[|fuel]]; try lia.
    unfold IsReservedIPv4, bind at 1, load_ipv4_ranges_count.
    cbn [mem_ipv4_ranges_count].
    change (int_sub 2 1) with 1.
    cbn [IsReservedIPv4_while]. change (0 <=? 1) with true. cbv iota.
    change (int_div (int_add 0 1) 2) with 0.
    unfold bind at 1. cbn.
    rewrite Z.geb_leb.
    destruct (Z.leb_spec (start r_hi) a); [lia|]. cbn [andb].
    destruct (Z.ltb_spec a (start r_hi)); [|lia].
    reflexivity.
  - apply linear_scan_hit. exists r_lo. split; [simpl; tauto | exact Hlo].
Qed.

Lemma binary_search_trusts_order_witness :
  IsReservedIPv4 2 3 (mkMemory [mkIPv4Range 10 20; mkIPv4Range 1 5] 2 [] 0) =
    Done 0 (mkMemory [mkIPv4Range 10 20; mkIPv4Range 1 5] 2 [] 0) /\
  Spec.linear_scan 3 [mkIPv4Range 10 20; mkIPv4Range 1 5] = 1.
Proof.
  apply (binary_search_trusts_order (mkIPv4Range 1 5) (mkIPv4Range 10 20) 3 2);
    [simpl; lia | simpl; lia | lia].
Defined.

Lemma bind_ext {A B} (c c' : M A) (k k' : A -> M B) m :
  c m = c' m ->
  (forall a m', c' m = Done a m' -> k a m' = k' a m') ->
  bind c k m = bind c' k' m.
Proof.
  intros Hc H. unfold bind. rewrite Hc. destruct (c' m) as [a m'| |]; auto.
Qed.

Section SameLeadingBytes.

Variable m : Memory.
Variables ip ip' : list Z.
Hypothesis Hsame : forall i, 0 <= i < 16 -> index ip i = index ip' i.
Hypothesis Hall : Forall prefix_ok (mem_ipv6_reserved_prefixes m).

Lemma load_byte_same i : 0 <= i < 16 -> load_byte ip i = load_byte ip' i.
Proof. intros H. unfold load_byte. now rewrite Hsame. Qed.

Lemma ipv6_matches_prefix_for_same p n fuel :
  n <= 16 ->
  forall i, 0 <= i ->
  ipv6_matches_prefix_for fuel ip p n i m =
  ipv6_matches_prefix_for fuel ip' p n i m.
Proof.
  intros Hn. induction fuel as [|fuel IH]; intros i Hi; [reflexivity|].
  cbn [ipv6_matches_prefix_for].
  destruct (Z.ltb_spec i n) as [Hlt|]; [|reflexivity].
  apply bind_ext; [now rewrite load_byte_same by lia|]. intros a m1 Ea.
  apply read_only_load_byte in Ea. subst m1.
  apply bind_ext; [reflexivity|]. intros b m2 Eb.
  apply read_only_load_prefix_byte in Eb. subst m2.
  destruct (negb (a =? b)); [reflexivity|].
  rewrite int_add_small by lia. apply IH. lia.
Qed.

Lemma ipv6_matches_prefix_same p fuel :
  ipv6_matches_prefix fuel ip p m = ipv6_matches_prefix fuel ip' p m.
Proof.
  unfold ipv6_matches_prefix.
  apply bind_ext; [reflexivity|]. intros len m1 Elen.
  pose proof (read_only_load_prefix_len _ _ _ _ Elen). subst m1.
  unfold load_prefix_len in Elen.
  destruct (index (mem_ipv6_reserved_prefixes m) p) as [e|] eqn:Hp;
    [|discriminate].
  injection Elen as <-.
  rewrite Forall_forall in Hall.
  destruct (Hall e (index_In _ _ _ Hp)) as [_ Hlen].
  rewrite int_div_nonneg, int_rem_nonneg by lia.
  pose proof (Z.div_mod (prefix_len e) 8 ltac:(lia)) as Hdm.
  pose proof (Z.mod_pos_bound (prefix_len e) 8 ltac:(lia)) as Hr.
  apply bind_ext; [apply ipv6_matches_prefix_for_same; lia|]. intros r m1 Er.
  apply read_only_ipv6_matches_prefix_for in Er. subst m1.
  destruct r; [reflexivity|].
  rewrite Z.gtb_ltb.
  destruct (Z.ltb_spec 0 (prefix_len e mod 8)); [|reflexivity].
  apply bind_ext; [now rewrite load_byte_same by lia | reflexivity].
Qed.

Lemma IsReservedIPv6_for_same fuel :
  forall i, IsReservedIPv6_for fuel ip i m = IsReservedIPv6_for fuel ip' i m.
Proof.
  induction fuel as [|fuel IH]; intros i; [reflexivity|].
  cbn [IsReservedIPv6_for].
  apply bind_ext; [reflexivity|]. intros count m1 Ec.
  apply read_only_load_ipv6_prefixes_count in Ec. subst m1.
  destruct (i <? count); [|reflexivity].
  apply bind_ext; [apply ipv6_matches_prefix_same|]. intros r m1 Er.
  apply read_only_ipv6_matches_prefix in Er. subst m1.
  destruct (negb (r =? 0)); [reflexivity | apply IH].
Qed.

End SameLeadingBytes.

Lemma index_app_left {A} (l l' : list A) i :
  0 <= i < Z.of_nat (length l) -> index (l ++ l') i = index l i.
Proof.
  intros H. unfold index. destruct (Z.ltb_spec i 0); [lia|].
  apply nth_error_app1. lia.
Qed.

(** X13.  [IsReservedIPv6] looks at the first sixteen bytes of the buffer
    only: bytes that follow them never change the outcome, for any table
    whose entries have a length of at most 128. *)
Theorem IsReservedIPv6_reads_sixteen_bytes
        (m : Memory) (ip rest : list Z) (fuel : nat) :
  length ip = 16%nat ->
  Forall prefix_ok (mem_ipv6_reserved_prefixes m) ->
  IsReservedIPv6 fuel (Some (ip ++ rest)) m = IsReservedIPv6 fuel (Some ip) m.
Proof.
  intros Hlen Hall. unfold IsReservedIPv6.
  apply IsReservedIPv6_for_same; [|exact Hall].
  intros i Hi. apply index_app_left. lia.
Qed.

Lemma IsReservedIPv6_reads_sixteen_bytes_witness :
  IsReservedIPv6 26 (Some (Spec.orchid_v2 ++ [0xDE; 0xAD])) initial_memory =
  IsReservedIPv6 26 (Some Spec.orchid_v2) initial_memory.
Proof.
  apply (IsReservedIPv6_reads_sixteen_bytes initial_memory Spec.orchid_v2
           [0xDE; 0xAD] 26); [reflexivity|].
  cbn. repeat constructor; cbn; lia.
Defined.
